(** * Panorama: transform primitives, pairwise aligner and mosaic blender

    A shallow embedding of the C++ sources
    [ImageLib/Transform.cpp], [ImageLib/Image.inl], [FeatureAlign.cpp],
    [BlendImages.cpp] and [Project2.cpp], and of further functions of
    [FeatureSet.cpp] and of the image library.

    - C++ [double] is Rocq's primitive binary64 [float]; C++ [float] is a
      [double] rounded to binary32 by [Num.single].
    - C++ [int] is [Z].  The address and loop arithmetic of the blender is
      taken without overflow; [Convolve.TrimIndex] and
      [ImageOps.ReAllocate_memory] wrap around as the compiled code does.
      The loops of the sources are [for_up]/[for_down].
    - Reference parameters that a function writes are returned.
    - An uninitialised local is an explicit argument of the model. *)

From Stdlib Require Import ZArith List Floats Lia Bool String.
Import ListNotations.

Local Open Scope Z_scope.

(** ** Loops *)

(** [for (i = lo; count iterations; i++) s = body i s]. *)
Fixpoint for_up {S : Type} (n : nat) (i : Z) (body : Z -> S -> S) (s : S) : S :=
  match n with
  | O => s
  | Datatypes.S n' => for_up n' (i + 1) body (body i s)
  end.

(** [for (i = lo; i < hi; i++)]. *)
Definition for_lt {S : Type} (lo hi : Z) (body : Z -> S -> S) (s : S) : S :=
  for_up (Z.to_nat (hi - lo)) lo body s.

(** [for (i = lo; i <= hi; i++)]. *)
Definition for_le {S : Type} (lo hi : Z) (body : Z -> S -> S) (s : S) : S :=
  for_up (Z.to_nat (hi + 1 - lo)) lo body s.

(** [count] iterations counting down: [i, i-1, ...]. *)
Fixpoint for_down {S : Type} (n : nat) (i : Z) (body : Z -> S -> S) (s : S) : S :=
  match n with
  | O => s
  | Datatypes.S n' => for_down n' (i - 1) body (body i s)
  end.

(** [for (i = hi; i > lo; i--)]. *)
Definition for_gt {S : Type} (hi lo : Z) (body : Z -> S -> S) (s : S) : S :=
  for_down (Z.to_nat (hi - lo)) hi body s.

(** ** Numbers *)

Module Num.

Definition double : Type := float.

(** The value of [(float) x]: [x] rounded to binary32 (24-bit mantissa,
    exponent bound 128), round to nearest even, and read back as a
    binary64, which holds every binary32 exactly. *)
Definition single (x : double) : double :=
  match Prim2SF x with
  | S754_finite s m e =>
      SF2Prim match binary_round 24 128 s m e with
              | S754_finite s' m' e' => binary_round 53 1024 s' m' e'
              | r => r
              end
  | _ => x
  end.

(** [<float.h>]: FLT_MAX. *)
Definition FLT_MAX : double := 0x1.fffffep+127%float.

Definition INT_MIN : Z := - 2 ^ 31.
Definition INT_MAX : Z := 2 ^ 31 - 1.

(** [(double) z] for an [int] z: exact, every 32-bit integer is a
    binary64. *)
Definition i2d (z : Z) : double :=
  if z <? 0 then PrimFloat.opp (PrimFloat.of_uint63 (Uint63.of_Z (- z)))
  else PrimFloat.of_uint63 (Uint63.of_Z z).

(** [(float) z] for an [int] z. *)
Definition i2f (z : Z) : double := single (i2d z).

(** The integer part of a finite double, rounded toward zero. *)
Definition truncZ (x : double) : option Z :=
  match Prim2SF x with
  | S754_zero _ => Some 0
  | S754_finite s m e => Some (cond_Zopp s (Z.shiftl (Zpos m) e))
  | _ => None
  end.

(** [(int) x].  C++ leaves the conversion of a NaN, an infinity or a value
    outside of [int] undefined; the model answers what the x86 conversion
    instruction does, INT_MIN. *)
Definition d2i (x : double) : Z :=
  match truncZ x with
  | Some z => if (INT_MIN <=? z) && (z <=? INT_MAX) then z else INT_MIN
  | None => INT_MIN
  end.

(** [<math.h>]: floor.  A double with a non-negative exponent is integral;
    otherwise the mantissa is shifted right, rounding downward. *)
Definition floor (x : double) : double :=
  match Prim2SF x with
  | S754_finite s m e =>
      if e <? 0 then i2d (Z.shiftl (cond_Zopp s (Zpos m)) e) else x
  | _ => x
  end.

(** [<math.h>]: ceil. *)
Definition ceil (x : double) : double :=
  PrimFloat.opp (floor (PrimFloat.opp x)).

(** [a >= b] on doubles is [b <= a]; false when either side is a NaN. *)
Definition geb (a b : double) : bool := PrimFloat.leb b a.

End Num.

Import Num.

(** ** ImageLib/Transform.h, ImageLib/Transform.cpp *)

Module Transform.

(** [double m_array[3]]. *)
Definition CVector3 : Type := (double * double * double)%type.

(** [v[i]], for the indices 0, 1, 2 the sources use. *)
Definition vget (v : CVector3) (i : Z) : double :=
  let '(a, b, c) := v in
  if i =? 0 then a else if i =? 1 then b else c.

(** [v[i] = x]. *)
Definition vset (v : CVector3) (i : Z) (x : double) : CVector3 :=
  let '(a, b, c) := v in
  if i =? 0 then (x, b, c) else if i =? 1 then (a, x, c) else (a, b, x).

(** [CVector3::CVector3()], run on the storage [raw] the object is
    given: [for (int i = 1; i < 3; i++) m_array[i] = 0;]. *)
Definition CVector3_ctor (raw : CVector3) : CVector3 :=
  for_lt 1 3 (fun i v => vset v i 0%float) raw.

(** The storage of a local [CVector3] before its constructor runs.  The
    functions below overwrite all three slots of such a local before they
    read it ([mulV_storage_irrelevant]). *)
Definition stack_junk : CVector3 := (0%float, 0%float, 0%float).

(** [double m_array[3][3]]. *)
Definition CTransform3x3 : Type := (CVector3 * CVector3 * CVector3)%type.

Definition mrow (M : CTransform3x3) (i : Z) : CVector3 :=
  let '(r0, r1, r2) := M in
  if i =? 0 then r0 else if i =? 1 then r1 else r2.

(** [M[i][j]]. *)
Definition mget (M : CTransform3x3) (i j : Z) : double := vget (mrow M i) j.

(** [M[i][j] = x]. *)
Definition mset (M : CTransform3x3) (i j : Z) (x : double) : CTransform3x3 :=
  let '(r0, r1, r2) := M in
  if i =? 0 then (vset r0 j x, r1, r2)
  else if i =? 1 then (r0, vset r1 j x, r2)
  else (r0, r1, vset r2 j x).

(** [CTransform3x3::CTransform3x3()]: [m_array[i][j] = (i == j)]. *)
Definition CTransform3x3_ctor (raw : CTransform3x3) : CTransform3x3 :=
  for_lt 0 3 (fun i M =>
    for_lt 0 3 (fun j M =>
      mset M i j (if i =? j then 1%float else 0%float)) M) raw.

(** A default-constructed transform; all nine entries are written, so
    the storage does not matter ([CTransform3x3_ctor_identity]). *)
Definition CTransform3x3_new : CTransform3x3 :=
  CTransform3x3_ctor (stack_junk, stack_junk, stack_junk).

(** [CTransform3x3::Translation(float tx, float ty)]: the arguments arrive
    as [float]. *)
Definition Translation (tx ty : double) : CTransform3x3 :=
  let tx := single tx in
  let ty := single ty in
  let M := CTransform3x3_new in
  let M := mset M 0 2 tx in
  let M := mset M 1 2 ty in
  M.

(** One step of the elimination loops of [Inverse]:
    [M0[k][j] -= mult * M0[i][j]; M1[k][j] -= mult * M1[i][j];]
    for [j = 0 .. n-1]. *)
Definition subtract_row (n k i : Z) (mult : double)
    (st : CTransform3x3 * CTransform3x3) : CTransform3x3 * CTransform3x3 :=
  for_lt 0 n (fun j '(M0, M1) =>
    (mset M0 k j (mget M0 k j - mult * mget M0 i j)%float,
     mset M1 k j (mget M1 k j - mult * mget M1 i j)%float)) st.

(** [CTransform3x3::Inverse()]: un-pivoted Gaussian elimination. *)
Definition Inverse (this : CTransform3x3) : CTransform3x3 :=
  let n := 3 in
  let M0 := this in
  let M1 := CTransform3x3_new in
  (* Forward elimination *)
  let st :=
    for_lt 0 n (fun i '(M0, M1) =>
      (* Normalize the row *)
      let row_inv := (1 / mget M0 i i)%float in
      let '(M0, M1) :=
        for_lt 0 n (fun j '(M0, M1) =>
          (mset M0 i j (mget M0 i j * row_inv)%float,
           mset M1 i j (mget M1 i j * row_inv)%float)) (M0, M1) in
      let M0 := mset M0 i i 1%float in
      (* Subtract from lower ones *)
      for_lt (i + 1) n (fun k '(M0, M1) =>
        let mult := mget M0 k i in
        subtract_row n k i mult (M0, M1)) (M0, M1)) (M0, M1) in
  (* Backward elimination *)
  let st :=
    for_gt (n - 1) 0 (fun i st =>
      (* Subtract from upper ones *)
      for_lt 0 i (fun k '(M0, M1) =>
        let mult := mget M0 k i in
        subtract_row n k i mult (M0, M1)) st) st in
  snd st.

(** [CTransform3x3::operator*(const CVector3& v)], with the local [v2]
    constructed on the storage [raw]. *)
Definition mulV_on (raw : CVector3) (M : CTransform3x3) (v : CVector3) : CVector3 :=
  let v2 := CVector3_ctor raw in
  for_lt 0 3 (fun i v2 =>
    let sum := for_lt 0 3 (fun k sum => (sum + mget M i k * vget v k)%float) 0%float in
    vset v2 i sum) v2.

Definition mulV (M : CTransform3x3) (v : CVector3) : CVector3 :=
  mulV_on stack_junk M v.

(** [CTransform3x3::operator*(const CTransform3x3& M1)]. *)
Definition mulM (M0 M1 : CTransform3x3) : CTransform3x3 :=
  let n := 3 in
  let M2 := CTransform3x3_new in
  for_lt 0 n (fun i M2 =>
    for_lt 0 n (fun j M2 =>
      let sum := for_lt 0 n (fun k sum => (sum + mget M0 i k * mget M1 k j)%float) 0%float in
      mset M2 i j sum) M2) M2.

(** Some entry of the matrix is a NaN or an infinity. *)
Definition has_nonfinite (M : CTransform3x3) : bool :=
  let '((a, b, c), (d, e, f), (g, h, i)) := M in
  negb (forallb PrimFloat.is_finite [a; b; c; d; e; f; g; h; i]).

End Transform.

Import Transform.

(** ** ImageLib/Image.h, ImageLib/Image.inl, ImageLib/Image.cpp *)

Module Image.

(** [struct CShape]. *)
Record CShape : Type := mkShape { width : Z; height : Z; nBands : Z }.

(** [CShape::InBounds(int x, int y)]. *)
Definition InBounds (s : CShape) (x y : Z) : bool :=
  (0 <=? x) && (x <? width s) && (0 <=? y) && (y <? height s).

(** [class CImageOf<T>]: the fields [PixelAddress] reads.  Addresses are
    byte addresses; [m_memory a] is the [T] stored at address [a]. *)
Record CImageOf (T : Type) : Type := mkImage {
  m_shape : CShape;
  m_bandSize : Z;      (* size of each band in bytes *)
  m_pixSize : Z;       (* stride between pixels in bytes *)
  m_rowSize : Z;       (* stride between rows in bytes *)
  m_memStart : Z;      (* start of addressable memory *)
  m_memory : Z -> T
}.
Arguments mkImage {T}.
Arguments m_shape {T}.
Arguments m_bandSize {T}.
Arguments m_pixSize {T}.
Arguments m_rowSize {T}.
Arguments m_memStart {T}.
Arguments m_memory {T}.

Definition Shape {T} (img : CImageOf T) : CShape := m_shape img.

(** Everything of an image but the content of its memory. *)
Definition header {T} (img : CImageOf T) : CShape * Z * Z * Z * Z :=
  (m_shape img, m_bandSize img, m_pixSize img, m_rowSize img, m_memStart img).

(** [CImage::ReAllocate(s, ti, bandSize, 0, true, 0)], as the constructor
    [CImageOf(CShape s)] calls it: no block and no row size are passed;
    [fresh] is the content of the new block, which starts at address
    [start].  The sizes are taken without overflow;
    [ImageOps.ReAllocate_memory] is the function with all its arguments
    and the arithmetic of [int]. *)
Definition ReAllocate {T} (s : CShape) (bandSize : Z) (start : Z) (fresh : Z -> T)
    : CImageOf T :=
  let pixSize := bandSize * nBands s in
  let rowSize := Z.land (pixSize * width s + 7) (-8) in
  mkImage s bandSize pixSize rowSize start fresh.

(** [CImage::PixelAddress]:
    [&m_memStart[y * m_rowSize + x * m_pixSize + band * m_bandSize]]. *)
Definition PixelAddress {T} (img : CImageOf T) (x y band : Z) : Z :=
  m_memStart img + (y * m_rowSize img + x * m_pixSize img + band * m_bandSize img).

(** Reading [img.Pixel(x, y, band)]. *)
Definition Pixel {T} (img : CImageOf T) (x y band : Z) : T :=
  m_memory img (PixelAddress img x y band).

Definition store {T} (mem : Z -> T) (a : Z) (v : T) : Z -> T :=
  fun a' => if a' =? a then v else mem a'.

(** [img.Pixel(x, y, band) = v]. *)
Definition SetPixel {T} (img : CImageOf T) (x y band : Z) (v : T) : CImageOf T :=
  mkImage (m_shape img) (m_bandSize img) (m_pixSize img) (m_rowSize img)
          (m_memStart img) (store (m_memory img) (PixelAddress img x y band) v).

(** [unsigned char] pixels, as their value in 0..255. *)
Definition uchar : Type := Z.
Definition CByteImage : Type := CImageOf uchar.
Definition CFloatImage : Type := CImageOf double.

(** [CImageOf<uchar>::PixelLerp(double x, double y, int band)]; the
    out-of-bounds message it prints is not modelled. *)
Definition PixelLerp (img : CByteImage) (x y : double) (band : Z) : double :=
  let xf := d2i x in
  let yf := d2i y in
  let t := (x - i2d xf)%float in
  let u := (y - i2d yf)%float in
  let p1 := i2d (Pixel img xf yf band) in
  let p2 := i2d (Pixel img (xf + 1) yf band) in
  let p3 := i2d (Pixel img xf (yf + 1) band) in
  let p4 := i2d (Pixel img (xf + 1) (yf + 1) band) in
  ((1 - u) * ((1 - t) * p1 + t * p2) + u * ((1 - t) * p3 + t * p4))%float.

End Image.

Import Image.

(** ** BlendImages.cpp *)

Module Blend.

(** The macros [MAX] and [MIN]. *)
Definition MAX (x y : double) : double := if (x <? y)%float then y else x.
Definition MIN (x y : double) : double := if (x <? y)%float then x else y.

(** The corner [(x, y, 1.0)] the sources write into [corners[k]]. *)
Definition corner (x y : double) : CVector3 :=
  vset (vset (vset (CVector3_ctor stack_junk) 0 x) 1 y) 2 1%float.

(** [corners[k][j] /= corners[0][2];] for [j = 0, 1]; [c0] is the current
    [corners[0]]. *)
Definition div_by_corner0 (c0 ck : CVector3) : CVector3 :=
  let ck := vset ck 0 (vget ck 0 / vget c0 2)%float in
  let ck := vset ck 1 (vget ck 1 / vget c0 2)%float in
  ck.

(** [ImageBoundingBox(image, M, min_x, min_y, max_x, max_y)]; the four
    output parameters are returned in that order. *)
Definition ImageBoundingBox {T} (image : CImageOf T) (M : CTransform3x3)
    : Z * Z * Z * Z :=
  let min_xf := FLT_MAX in
  let min_yf := FLT_MAX in
  let max_xf := 0%float in
  let max_yf := 0%float in
  let width := width (Shape image) in
  let height := height (Shape image) in
  let c0 := corner 0%float 0%float in
  let c1 := corner (i2d (width - 1)) 0%float in
  let c2 := corner 0%float (i2d (height - 1)) in
  let c3 := corner (i2d (width - 1)) (i2d (height - 1)) in
  let c0 := mulV M c0 in
  let c1 := mulV M c1 in
  let c2 := mulV M c2 in
  let c3 := mulV M c3 in
  let c0 := div_by_corner0 c0 c0 in
  let c1 := div_by_corner0 c0 c1 in
  let c2 := div_by_corner0 c0 c2 in
  let c3 := div_by_corner0 c0 c3 in
  let min_xf := single (MIN min_xf (vget c0 0)) in
  let min_xf := single (MIN min_xf (vget c1 0)) in
  let min_xf := single (MIN min_xf (vget c2 0)) in
  let min_xf := single (MIN min_xf (vget c3 0)) in
  let min_yf := single (MIN min_yf (vget c0 1)) in
  let min_yf := single (MIN min_yf (vget c1 1)) in
  let min_yf := single (MIN min_yf (vget c2 1)) in
  let min_yf := single (MIN min_yf (vget c3 1)) in
  let max_xf := single (MAX max_xf (vget c0 0)) in
  let max_xf := single (MAX max_xf (vget c1 0)) in
  let max_xf := single (MAX max_xf (vget c2 0)) in
  let max_xf := single (MAX max_xf (vget c3 0)) in
  let max_yf := single (MAX max_yf (vget c0 1)) in
  let max_yf := single (MAX max_yf (vget c1 1)) in
  let max_yf := single (MAX max_yf (vget c2 1)) in
  let max_yf := single (MAX max_yf (vget c3 1)) in
  (d2i (floor min_xf), d2i (floor min_yf), d2i (ceil max_xf), d2i (ceil max_yf)).

(** The bounding box the way section 4.3 of the specification words it:
    every mapped corner is divided by its own homogeneous coordinate, then
    floor of the minimum and ceiling of the maximum of the four. *)
Definition dehomogenize (c : CVector3) : double * double :=
  ((vget c 0 / vget c 2)%float, (vget c 1 / vget c 2)%float).

Definition min4 (a b c d : double) : double := MIN (MIN (MIN a b) c) d.
Definition max4 (a b c d : double) : double := MAX (MAX (MAX a b) c) d.

Definition boundingBox_spec {T} (image : CImageOf T) (M : CTransform3x3)
    : Z * Z * Z * Z :=
  let w := i2d (width (Shape image) - 1) in
  let h := i2d (height (Shape image) - 1) in
  let '(x0, y0) := dehomogenize (mulV M (corner 0%float 0%float)) in
  let '(x1, y1) := dehomogenize (mulV M (corner w 0%float)) in
  let '(x2, y2) := dehomogenize (mulV M (corner 0%float h)) in
  let '(x3, y3) := dehomogenize (mulV M (corner w h)) in
  (d2i (floor (min4 x0 x1 x2 x3)), d2i (floor (min4 y0 y1 y2 y3)),
   d2i (ceil (max4 x0 x1 x2 x3)), d2i (ceil (max4 y0 y1 y2 y3))).

(** The two images [AccumulateBlend] receives by reference. *)
Definition BlendState : Type := (CByteImage * CFloatImage)%type.

(** The test under [/* Skip black pixels */]: bands 0, 1 and 2 of the
    source pixel are all [0x0]. *)
Definition black (img : CByteImage) (x y : Z) : bool :=
  (Pixel img x y 0 =? 0) && (Pixel img x y 1 =? 0) && (Pixel img x y 2 =? 0).

(** [acc.Pixel(x, y, band) += v] on a float image. *)
Definition PixelAdd (acc : CFloatImage) (x y band : Z) (v : double) : CFloatImage :=
  SetPixel acc x y band (single (Pixel acc x y band + v)%float).

(** The source coordinate [(x_src, y_src)] of the destination pixel. *)
Definition src_coord (Minv : CTransform3x3) (x y : Z) : double * double :=
  let p_dest := CVector3_ctor stack_junk in
  let p_dest := vset p_dest 0 (i2d x) in
  let p_dest := vset p_dest 1 (i2d y) in
  let p_dest := vset p_dest 2 1%float in
  let p_src := mulV Minv p_dest in
  let x_src := single (vget p_src 0 / vget p_src 2)%float in
  let y_src := single (vget p_src 1 / vget p_src 2)%float in
  (x_src, y_src).

(** The check of the bounds in the source. *)
Definition outside_source (img : CByteImage) (x_src y_src : double) : bool :=
  (x_src <? 0)%float || geb x_src (i2f (width (Shape img) - 1)) ||
  (y_src <? 0)%float || geb y_src (i2f (height (Shape img) - 1)).

(** The four statements that add to the accumulator; the TODO of the
    sources leaves [weight] at 1.0. *)
Definition add_sample (img : CByteImage) (acc : CFloatImage) (x y : Z)
    (x_src y_src : double) : CFloatImage :=
  let weight := 1%float in
  let acc := PixelAdd acc x y 0 (single (weight * PixelLerp img x_src y_src 0)%float) in
  let acc := PixelAdd acc x y 1 (single (weight * PixelLerp img x_src y_src 1)%float) in
  let acc := PixelAdd acc x y 2 (single (weight * PixelLerp img x_src y_src 2)%float) in
  let acc := PixelAdd acc x y 3 (single weight) in
  acc.

(** The body of the inner loop of [AccumulateBlend]; every [continue]
    leaves the state as it is. *)
Definition blend_pixel (Minv : CTransform3x3) (y x : Z) (st : BlendState) : BlendState :=
  let '(img, acc) := st in
  (* Check bounds in destination *)
  if (x <? 0) || (x >=? width (Shape acc)) || (y <? 0) || (y >=? height (Shape acc))
  then st else
  (* Compute source pixel and check bounds in source *)
  let '(x_src, y_src) := src_coord Minv x y in
  if outside_source img x_src y_src then st else
  let xf := d2i (floor x_src) in
  let yf := d2i (floor y_src) in
  let xc := xf + 1 in
  let yc := yf + 1 in
  (* Skip black pixels *)
  if black img xf yf then st else
  if black img xc yf then st else
  if black img xf yc then st else
  if black img xc yc then st else
  (img, add_sample img acc x y x_src y_src).

(** The tests of [blend_pixel] that follow the check of the destination
    bounds, taken together: the pixel is left alone when one of them
    holds. *)
Definition skips (img : CByteImage) (Minv : CTransform3x3) (x y : Z) : bool :=
  let '(x_src, y_src) := src_coord Minv x y in
  let xf := d2i (floor x_src) in
  let yf := d2i (floor y_src) in
  outside_source img x_src y_src ||
  black img xf yf || black img (xf + 1) yf ||
  black img xf (yf + 1) || black img (xf + 1) (yf + 1).


(** The accumulator [AccumulateBlend] is written for ("the first 3 band of
    acc records the weighted sum of pixel colors, the fourth band of acc
    records the sum of weight"), laid out as [ReAllocate] does: at least
    four bands of a positive size, pixels [nBands] bands apart, rows at
    least [width] pixels apart. *)
Definition four_band_layout (acc : CFloatImage) : bool :=
  (4 <=? nBands (Shape acc)) &&
  (0 <? m_bandSize acc) &&
  (m_pixSize acc =? m_bandSize acc * nBands (Shape acc)) &&
  (m_pixSize acc * width (Shape acc) <=? m_rowSize acc).


(** [AccumulateBlend(img, acc, M, blendWidth)]. *)
Definition AccumulateBlend (st : BlendState) (M : CTransform3x3) (blendWidth : double)
    : BlendState :=
  let '(bb_min_x, bb_min_y, bb_max_x, bb_max_y) := ImageBoundingBox (fst st) M in
  let Minv := Inverse M in
  for_le bb_min_y bb_max_y (fun y st =>
    for_lt bb_min_x bb_max_x (fun x st => blend_pixel Minv y x st) st) st.

End Blend.

(** ** FeatureSet.h, FeatureAlign.h, FeatureAlign.cpp *)

Module FeatureAlign.

(** [struct FeatureMatch]. *)
Record FeatureMatch : Type := mkMatch { id1 : Z; id2 : Z; score : double }.

(** [class Feature]. *)
Record Feature : Type := mkFeature {
  type : Z;
  id : Z;
  x : Z;
  y : Z;
  angleRadians : double;
  data : list double;
  selected : bool
}.

(** [class FeatureSet : public vector<Feature>]. *)
Definition FeatureSet : Type := list Feature.

(** [enum MotionModel]. *)
Inductive MotionModel : Type := eTranslate | eRotate3D.

(** [alignPair(f1, f2, matches, m, f, nRANSAC, RANSACthresh, M)]: the
    body between BEGIN TODO and END TODO is empty, the function returns 0.
    The result pairs the returned [int] with the output parameter [M]. *)
Definition alignPair (f1 f2 : FeatureSet) (matches : list FeatureMatch)
    (m : MotionModel) (f : double) (nRANSAC : Z) (RANSACthresh : double)
    (M : CTransform3x3) : Z * CTransform3x3 :=
  (0, M).

(** [countInliers(f1, f2, matches, m, f, M, RANSACthresh, inliers)]: the
    loop over the matches has an empty body.  The result pairs the
    returned [int] with the output parameter [inliers]. *)
Definition countInliers (f1 f2 : FeatureSet) (matches : list FeatureMatch)
    (m : MotionModel) (f : double) (M : CTransform3x3) (RANSACthresh : double)
    (inliers : list Z) : Z * list Z :=
  let inliers : list Z := [] in
  let count := 0 in
  let '(count, inliers) :=
    for_lt 0 (Z.of_nat (List.length matches))
      (fun i (st : Z * list Z) => st) (count, inliers) in
  (count, inliers).

(** [leastSquaresFit(f1, f2, matches, m, f, inliers, M)].  The locals
    [xTrans], [yTrans] are declared without a value and the TODO that
    should assign them is empty: [indet i] is what iteration [i] reads
    from them.  [inliers.size()] is converted to [double] for the
    divisions. *)
Definition leastSquaresFit (f1 f2 : FeatureSet) (matches : list FeatureMatch)
    (m : MotionModel) (f : double) (inliers : list Z)
    (indet : Z -> double * double) (M : CTransform3x3) : Z * CTransform3x3 :=
  let u := 0%float in
  let v := 0%float in
  let size := Z.of_nat (List.length inliers) in
  let '(u, v) :=
    for_lt 0 size (fun i '(u, v) =>
      let '(xTrans, yTrans) := indet i in
      ((u + xTrans)%float, (v + yTrans)%float)) (u, v) in
  let u := (u / i2d size)%float in
  let v := (v / i2d size)%float in
  let M := mset M 0 0 1%float in
  let M := mset M 0 1 0%float in
  let M := mset M 0 2 u in
  let M := mset M 1 0 0%float in
  let M := mset M 1 1 1%float in
  let M := mset M 1 2 v in
  let M := mset M 2 0 0%float in
  let M := mset M 2 1 0%float in
  let M := mset M 2 2 1%float in
  (0, M).

(** *** The aligner as section 4.1 of the specification words it *)

(** [f1[id - 1]]: features are referenced by 1-based id. *)
Definition feature_of (fs : FeatureSet) (id : Z) : option Feature :=
  if id <=? 0 then None else nth_error fs (Z.to_nat (id - 1)).

(** 4.1a: the location of the f1 feature, mapped through the candidate
    transform, lies within the threshold (Euclidean distance, compared
    squared) of the location of the matched f2 feature. *)
Definition inlier_spec (f1 f2 : FeatureSet) (M : CTransform3x3)
    (thresh : double) (mt : FeatureMatch) : bool :=
  match feature_of f1 (id1 mt), feature_of f2 (id2 mt) with
  | Some a, Some b =>
      let p := mulV M (i2d (x a), i2d (y a), 1%float) in
      let ex := (vget p 0 / vget p 2 - i2d (x b))%float in
      let ey := (vget p 1 / vget p 2 - i2d (y b))%float in
      (ex * ex + ey * ey <=? thresh * thresh)%float
  | _, _ => false
  end.

(** 4.1a: the count, and the match-list indices that qualified. *)
Fixpoint inlier_indices_spec (f1 f2 : FeatureSet) (M : CTransform3x3)
    (thresh : double) (i : Z) (matches : list FeatureMatch) : list Z :=
  match matches with
  | [] => []
  | mt :: rest =>
      let tl := inlier_indices_spec f1 f2 M thresh (i + 1) rest in
      if inlier_spec f1 f2 M thresh mt then i :: tl else tl
  end.

Definition countInliers_spec (f1 f2 : FeatureSet) (matches : list FeatureMatch)
    (M : CTransform3x3) (thresh : double) : Z * list Z :=
  let l := inlier_indices_spec f1 f2 M thresh 0 matches in
  (Z.of_nat (List.length l), l).

(** 4.1b: the displacement (f2.location - f1.location) of a match. *)
Definition displacement_spec (f1 f2 : FeatureSet) (mt : FeatureMatch)
    : option (double * double) :=
  match feature_of f1 (id1 mt), feature_of f2 (id2 mt) with
  | Some a, Some b => Some (i2d (x b - x a), i2d (y b - y a))
  | _, _ => None
  end.

End FeatureAlign.

(** ** Project2.cpp *)

Module Project2.

(** One line of the pair list as [sscanf(line, "%s %s %lf %lf", ...)] reads
    it. *)
Record PairLine : Type := mkPair {
  infile1 : string;
  infile2 : string;
  rel_dx : double;
  rel_dy : double
}.

(** [struct CImagePosition] of BlendImages.h: an image and its
    [CTransform3x3 position].  The image is stood for by the name of the
    file it is read from. *)
Record CImagePosition : Type := mkPos {
  img : string;
  position : CTransform3x3
}.

Inductive outcome : Type :=
| Positions (ipList : list CImagePosition)
| OpenError            (* throw CError("%s: could not open the file %s", ...) *)
| ReadError            (* throw CError("%s: error reading %s\n", ...) *)
| ImageError           (* the CError that ReadFile throws *)
| Undefined.           (* ipList[n-1] with n = 0 *)

(** [M] after [sscanf] has stored the two numbers of the line into
    [M[0][2]] and [M[1][2]] and [M[1][2] = -M[1][2];] has run. *)
Definition read_M (M : CTransform3x3) (l : PairLine) : CTransform3x3 :=
  let M := mset (mset M 0 2 (rel_dx l)) 1 2 (rel_dy l) in
  mset M 1 2 (- mget M 1 2)%float.

(** [ipList[i]]; the default stands for what an index outside of the
    vector reads, which the loop below never does. *)
Definition at_index (ipList : list CImagePosition) (i : Z) : CImagePosition :=
  nth (Z.to_nat i) ipList (mkPos EmptyString CTransform3x3_new).

(** The loop [for (n = 0; fgets(line, 1024, stream); n++)] of [BlendPairs].
    [lines] are the lines still to read, [None] standing for a line on
    which [sscanf] does not find four fields; [ReadFile_ok] tells of which
    files [ReadFile] reads an image, throwing for the others; the state is
    [n], [ipList], [M] and [infile2].  The result is the state after the
    loop or the error that ended it. *)
Fixpoint read_pairs (ReadFile_ok : string -> bool) (lines : list (option PairLine))
    (n : Z) (ipList : list CImagePosition) (M : CTransform3x3) (file2 : string)
    : (Z * list CImagePosition * CTransform3x3 * string) + outcome :=
  match lines with
  | [] => inl (n, ipList, M, file2)
  | line :: rest =>
      (* Compute the position from the PREVIOUS displacement *)
      let pos :=
        if n =? 0 then Translation 0%float 0%float (* Ident matrix *)
        else mulM (position (at_index ipList (n - 1))) M in
      (* Read the line and push the image onto the list *)
      match line with
      | None => inr ReadError
      | Some l =>
          let M := read_M M l in
          if ReadFile_ok (infile1 l) then
            read_pairs ReadFile_ok rest (n + 1) (ipList ++ [mkPos (infile1 l) pos])
                       M (infile2 l)
          else inr ImageError
      end
  end.

(** The list of positions [BlendPairs] hands to [BlendImages].  [stream]
    is what [fopen] returns for the pair list, [None] for the null pointer;
    [file2_0] is the content of [infile2] before the loop. *)
Definition BlendPairs_positions (ReadFile_ok : string -> bool)
    (stream : option (list (option PairLine))) (file2_0 : string) : outcome :=
  match stream with
  | None => OpenError
  | Some lines =>
      match read_pairs ReadFile_ok lines 0 [] CTransform3x3_new file2_0 with
      | inr e => e
      | inl (n, ipList, M, file2) =>
          (* Read in the last image *)
          if n =? 0 then Undefined
          else
            let pos := mulM (position (at_index ipList (n - 1))) M in
            if ReadFile_ok file2 then Positions (ipList ++ [mkPos file2 pos])
            else ImageError
      end
  end.



End Project2.

(** ** Inputs of the examples *)

Module Examples.

Import FeatureAlign Project2 Blend.

Definition feature_at (x y : Z) : Feature :=
  mkFeature 0 1 x y 0%float [] false.

(** One feature per image, displaced by (5, -3), and the one match
    between them. *)
Definition fs1 : FeatureSet := [feature_at 10 20].
Definition fs2 : FeatureSet := [feature_at 15 17].
Definition one_match : list FeatureMatch := [mkMatch 1 1 0%float].

(** The transform [AlignPair] of Panorama.cpp passes: default
    constructed. *)
Definition M_default : CTransform3x3 := CTransform3x3_new.

Definition no_junk (i : Z) : double * double := (0%float, 0%float).

(** The zero matrix and a singular matrix of rank two. *)
Definition M_zero : CTransform3x3 :=
  ((0, 0, 0), (0, 0, 0), (0, 0, 0))%float.
Definition M_rank2 : CTransform3x3 :=
  ((1, 2, 0), (2, 4, 0), (0, 0, 1))%float.

(** A projective transform with last row (1, 0, 1). *)
Definition M_projective : CTransform3x3 :=
  ((1, 0, 0), (0, 1, 0), (1, 0, 1))%float.

(** A freshly allocated 4-band byte image whose pixels all hold [v]. *)
Definition flat_image (w h v : Z) : CByteImage :=
  ReAllocate (mkShape w h 4) 1 0 (fun _ => v).


(** A cleared 4-band accumulator. *)
Definition cleared_acc (w h : Z) : CFloatImage :=
  ReAllocate (mkShape w h 4) 4 0 (fun _ => 0%float).

Definition two_lines : list (option PairLine) :=
  [Some (mkPair "a.tga" "b.tga" 1 0); Some (mkPair "b.tga" "c.tga" 2.5 (-3))]%float.

End Examples.

(** * Properties *)

(** ** Loops *)

Section LoopFacts.

Context {S : Type}.

Lemma for_up_skip (n : nat) (i : Z) (s : S) :
  for_up n i (fun _ s => s) s = s.
Proof.
  revert i; induction n as [|n IH]; intros i; simpl; auto.
Qed.

Lemma for_lt_skip (lo hi : Z) (s : S) :
  for_lt lo hi (fun _ s => s) s = s.
Proof. apply for_up_skip. Qed.

(** A property that every iteration of the range preserves holds after
    the loop. *)
Lemma for_up_preserves (P : S -> Prop) (body : Z -> S -> S) :
  forall (n : nat) (lo : Z) (s : S),
    (forall i s, lo <= i < lo + Z.of_nat n -> P s -> P (body i s)) ->
    P s -> P (for_up n lo body s).
Proof.
  induction n as [|n IH]; intros lo s Hstep Hs; simpl; auto.
  apply IH.
  - intros i s' Hi Hs'. apply Hstep; auto. lia.
  - apply Hstep; auto. lia.
Qed.

End LoopFacts.

(** ** Transform *)

Section TransformFacts.

Local Open Scope float_scope.

Lemma CTransform3x3_ctor_identity (raw : CTransform3x3) :
  CTransform3x3_ctor raw = ((1, 0, 0), (0, 1, 0), (0, 0, 1)).
Proof. destruct raw as [[[[? ?] ?] [[? ?] ?]] [[? ?] ?]]. reflexivity. Qed.

Lemma mulV_storage_irrelevant (raw : CVector3) (M : CTransform3x3) (v : CVector3) :
  mulV_on raw M v = mulV M v.
Proof. destruct raw as [[? ?] ?]. reflexivity. Qed.

Lemma nan_sub (x : double) : nan - x = nan.
Proof. apply Prim2SF_inj. rewrite sub_spec. reflexivity. Qed.

(** [x == 0.0] holds of the two zeros only. *)
Lemma eqb_zero_cases (x : double) :
  (x =? 0) = true -> x = 0 \/ x = (-0).
Proof.
  rewrite FloatAxioms.eqb_spec. intros H.
  rewrite <- (SF2Prim_Prim2SF x).
  destruct (Prim2SF x) as [[|]|[|]| |[|] ? ?]; try discriminate H; auto.
Qed.

End TransformFacts.

Section TransformClaims.

Local Open Scope float_scope.
Import Examples.

(** C10.  The default constructor of [CVector3] zeroes the slots 1 and 2
    and leaves slot 0 holding whatever its storage held: a
    default-constructed [CVector3] need not have a zero first component. *)
Theorem CVector3_ctor_keeps_first_slot (raw : CVector3) :
  vget (CVector3_ctor raw) 0 = vget raw 0 /\
  vget (CVector3_ctor raw) 1 = 0 /\
  vget (CVector3_ctor raw) 2 = 0.
Proof. destruct raw as [[a b] c]. repeat split. Qed.

Example CVector3_ctor_on_ones :
  CVector3_ctor (1, 1, 1) = (1, 0, 0).
Proof. reflexivity. Qed.

(** C8, as stated, fails: for the singular transform [M_rank2] (and for
    the zero matrix) [Inverse] returns a matrix, every entry of which is a
    NaN; nothing is signalled. *)
Lemma Inverse_singular_returns_nan :
  Inverse M_rank2 = ((nan, nan, nan), (nan, nan, nan), (nan, nan, nan)) /\
  has_nonfinite (Inverse M_rank2) = true /\
  Inverse M_zero = ((nan, nan, nan), (nan, nan, nan), (nan, nan, nan)).
Proof. repeat split; vm_compute; reflexivity. Qed.

(** C8, amended.  [Inverse] guards none of its divisions and returns a
    matrix for every transform: whenever the first pivot [M[0][0]]
    compares equal to zero, the entries [0][1] and [0][2] of the returned
    matrix are NaN. *)
Theorem Inverse_zero_pivot_nan (M : CTransform3x3) :
  (mget M 0 0 =? 0) = true ->
  mget (Inverse M) 0 1 = nan /\
  mget (Inverse M) 0 2 = nan /\
  has_nonfinite (Inverse M) = true.
Proof.
  intros Hz.
  assert (H : mget (Inverse M) 0 1 = nan /\ mget (Inverse M) 0 2 = nan).
  { destruct M as [[[[a b] c] [[d e] f]] [[g h] i]].
    apply eqb_zero_cases in Hz. cbn in Hz.
    destruct Hz; subst a; split; cbv; rewrite !nan_sub; reflexivity. }
  destruct H as [H01 H02]. repeat split; auto.
  destruct (Inverse M) as [[[[a' b'] c'] [[d' e'] f']] [[g' h'] i']].
  cbn in H01. subst b'. cbn.
  rewrite andb_false_r. reflexivity.
Qed.

Lemma Inverse_zero_pivot_nan_witness :
  mget (Inverse M_zero) 0 1 = nan /\
  mget (Inverse M_zero) 0 2 = nan /\
  has_nonfinite (Inverse M_zero) = true.
Proof. apply (Inverse_zero_pivot_nan M_zero). reflexivity. Defined.

End TransformClaims.

(** ** Pairwise aligner *)

Section AlignerClaims.

Local Open Scope float_scope.
Import FeatureAlign Examples.

Lemma leastSquaresFit_result (f1 f2 : FeatureSet) (matches : list FeatureMatch)
    (m : MotionModel) (f : double) (inliers : list Z)
    (indet : Z -> double * double) (M : CTransform3x3) :
  exists u v,
    leastSquaresFit f1 f2 matches m f inliers indet M =
      (0%Z, ((1, 0, u), (0, 1, v), (0, 0, 1))).
Proof.
  unfold leastSquaresFit.
  destruct (for_lt _ _ _ _) as [u v].
  destruct M as [[[[a b] c] [[d e] f']] [[g h] i]].
  eexists; eexists; reflexivity.
Qed.

(** C1.  [alignPair] computes nothing: for every input it returns 0 and
    leaves the output parameter [M] as the caller passed it, so [M] is not
    the transform that the matches imply. *)
Theorem alignPair_leaves_M (f1 f2 : FeatureSet) (matches : list FeatureMatch)
    (m : MotionModel) (f : double) (nRANSAC : Z) (RANSACthresh : double)
    (M : CTransform3x3) :
  alignPair f1 f2 matches m f nRANSAC RANSACthresh M = (0%Z, M).
Proof. reflexivity. Qed.

(** The only match of the example implies the translation (5, -3); the
    transform [alignPair] leaves behind has translation (0, 0). *)
Example alignPair_on_example :
  map (displacement_spec fs1 fs2) one_match = [Some (5, -3)] /\
  snd (alignPair fs1 fs2 one_match eTranslate 0 1 1 M_default) =
    ((1, 0, 0), (0, 1, 0), (0, 0, 1)).
Proof. split; reflexivity. Qed.



(** C3.  The transform [leastSquaresFit] stores has the identity as its
    rotation/scale part, but its translation entries do not depend on the
    features or the matches: they are the sums of the values read from
    the unassigned [xTrans], [yTrans], divided by the inlier count.  On
    the example, whose only inlier has displacement (5, -3), locals that
    read as zero give the translation (0, 0). *)
Theorem leastSquaresFit_ignores_features :
  (forall f1 f2 matches f1' f2' matches' m f inliers indet M,
      leastSquaresFit f1 f2 matches m f inliers indet M =
      leastSquaresFit f1' f2' matches' m f inliers indet M) /\
  (forall f1 f2 matches m f inliers indet M,
      let M' := snd (leastSquaresFit f1 f2 matches m f inliers indet M) in
      mget M' 0 0 = 1 /\ mget M' 0 1 = 0 /\
      mget M' 1 0 = 0 /\ mget M' 1 1 = 1 /\
      mget M' 2 0 = 0 /\ mget M' 2 1 = 0 /\ mget M' 2 2 = 1) /\
  map (displacement_spec fs1 fs2) one_match = [Some (5, -3)] /\
  leastSquaresFit fs1 fs2 one_match eTranslate 0 [0%Z] no_junk M_default =
    (0%Z, ((1, 0, 0), (0, 1, 0), (0, 0, 1))).
Proof.
  split; [reflexivity|]. split; [|split; reflexivity].
  intros f1 f2 matches m f inliers indet M.
  destruct (leastSquaresFit_result f1 f2 matches m f inliers indet M)
    as (u & v & ->).
  cbn. repeat split.
Qed.

(** C4.  [countInliers] clears the output list and its loop body is
    empty: for every input it returns the count 0 and an empty list.  On
    the example, where the only match is mapped exactly onto its partner
    by the candidate transform, the inlier counter of section 4.1a yields
    the count 1 and the index list [0]. *)
Theorem countInliers_counts_nothing :
  (forall f1 f2 matches m f M RANSACthresh inliers,
      countInliers f1 f2 matches m f M RANSACthresh inliers = (0%Z, [])) /\
  countInliers_spec fs1 fs2 one_match (Translation 5 (-3)) 1 = (1%Z, [0%Z]).
Proof.
  split; [|reflexivity].
  intros. unfold countInliers. rewrite for_lt_skip. reflexivity.
Qed.

End AlignerClaims.

(** ** Bounding box *)

Section BoundingBoxClaims.

Local Open Scope float_scope.
Import Blend Examples.

(** C6.  [ImageBoundingBox] divides all four mapped corners by the
    homogeneous coordinate of corner 0, and starts its maxima at 0.0.
    Under the projective [M_projective] a 5x5 image has the corners
    (0,0), (0.8,0), (0,4), (0.8,0.8), yet the box returned reaches x = 4;
    under the translation by (-100, -100) a 10x10 image ends at
    (-91, -91), yet the box returned ends at (0, 0). *)
Theorem ImageBoundingBox_first_corner_divisor :
  ImageBoundingBox (flat_image 5 5 0) M_projective = (0, 0, 4, 4)%Z /\
  boundingBox_spec (flat_image 5 5 0) M_projective = (0, 0, 1, 4)%Z /\
  ImageBoundingBox (flat_image 10 10 0) (Translation (-100) (-100)) =
    (-100, -100, 0, 0)%Z /\
  boundingBox_spec (flat_image 10 10 0) (Translation (-100) (-100)) =
    (-100, -100, -91, -91)%Z.
Proof. repeat split; vm_compute; reflexivity. Qed.

End BoundingBoxClaims.

(** ** Chaining of positions *)

Section BlendPairsClaims.

Local Open Scope float_scope.
Import Project2 Examples.








Example BlendPairs_two_lines :
  BlendPairs_positions (fun _ => true) (Some two_lines) EmptyString =
  Positions [mkPos "a.tga" ((1, 0, 0), (0, 1, 0), (0, 0, 1));
             mkPos "b.tga" ((1, 0, 1), (0, 1, 0), (0, 0, 1));
             mkPos "c.tga" ((1, 0, 3.5), (0, 1, 3), (0, 0, 1))].
Proof. vm_compute. reflexivity. Qed.



End BlendPairsClaims.

(** ** Accumulation *)

Section LoopVisits.

Context {S V : Type}.
Variable view : S -> V.
Variable Inv : S -> Prop.
Variable body : Z -> S -> S.
Hypothesis Inv_step : forall i s, Inv s -> Inv (body i s).



End LoopVisits.

Section BlendFacts.

Local Open Scope float_scope.
Import Blend.





Lemma header_PixelAddress {T} (a b : CImageOf T) (x y band : Z) :
  header a = header b -> PixelAddress a x y band = PixelAddress b x y band.
Proof.
  unfold header, PixelAddress. intros H. injection H as _ -> -> -> ->. reflexivity.
Qed.

Lemma header_add_sample (img : CByteImage) (acc : CFloatImage) (x y : Z)
    (x_src y_src : double) :
  header (add_sample img acc x y x_src y_src) = header acc.
Proof. reflexivity. Qed.


(** The check of the destination bounds is [InBounds] negated. *)
Lemma dest_check_InBounds (acc : CFloatImage) (x y : Z) :
  ((x <? 0) || (x >=? width (Shape acc)) || (y <? 0) || (y >=? height (Shape acc)))%Z =
  negb (InBounds (Shape acc) x y).
Proof.
  unfold InBounds.
  destruct (Z.ltb_spec x 0), (Z.leb_spec 0 x); try lia;
  destruct (Z.geb_spec x (width (Shape acc))), (Z.ltb_spec x (width (Shape acc))); try lia;
  destruct (Z.ltb_spec y 0), (Z.leb_spec 0 y); try lia;
  destruct (Z.geb_spec y (height (Shape acc))), (Z.ltb_spec y (height (Shape acc))); try lia;
  reflexivity.
Qed.

(** The body of the loop, by cases. *)
Lemma blend_pixel_cases (Minv : CTransform3x3) (y x : Z) (img : CByteImage)
    (acc : CFloatImage) :
  blend_pixel Minv y x (img, acc) =
  if negb (InBounds (Shape acc) x y) then (img, acc)
  else if skips img Minv x y then (img, acc)
  else (img, add_sample img acc x y (fst (src_coord Minv x y)) (snd (src_coord Minv x y))).
Proof.
  unfold blend_pixel, skips. rewrite dest_check_InBounds.
  destruct (negb (InBounds (Shape acc) x y)); [reflexivity|].
  destruct (src_coord Minv x y) as [x_src y_src]. cbn [fst snd].
  destruct (outside_source img x_src y_src); [reflexivity|].
  cbn [orb].
  repeat match goal with
         | |- context [if black ?i ?a ?b then _ else _] =>
             destruct (black i a b); cbn [orb]; [rewrite ?orb_true_r; reflexivity|]
         end.
  reflexivity.
Qed.








(** [ReAllocate] rounds the row stride up: [(n + 7) & -8] is the multiple
    of eight next to [n] from above. *)
Lemma round_up_to_8 (n : Z) : (n <= Z.land (n + 7) (-8) <= n + 7)%Z.
Proof.
  change (-8)%Z with (Z.lnot (Z.ones 3)).
  rewrite <- Z.ldiff_land, Z.ldiff_ones_r by lia.
  rewrite Z.shiftr_div_pow2, Z.shiftl_mul_pow2 by lia.
  change (2 ^ 3)%Z with 8%Z.
  pose proof (Z.div_mod (n + 7) 8 ltac:(lia)).
  pose proof (Z.mod_pos_bound (n + 7) 8 ltac:(lia)).
  lia.
Qed.

(** A float image with four or more bands, as its constructor lays it out,
    has the layout [AccumulateBlend] is written for. *)
Lemma ReAllocate_four_band_layout (s : CShape) (bandSize start : Z)
    (fresh : Z -> double) :
  (4 <= nBands s)%Z -> (0 < bandSize)%Z ->
  four_band_layout (ReAllocate s bandSize start fresh) = true.
Proof.
  intros HnB HB. unfold four_band_layout, ReAllocate, Shape. cbn.
  pose proof (round_up_to_8 (bandSize * nBands s * width s)).
  rewrite !andb_true_iff, !Z.leb_le, Z.ltb_lt, Z.eqb_eq. lia.
Qed.



(** The two loops of [AccumulateBlend] keep what every run of their body,
    at a pixel of the loop ranges, keeps. *)
Lemma blend_loops_preserve (P : BlendState -> Prop) (Minv : CTransform3x3)
    (bx0 by0 bx1 by1 : Z) (st : BlendState) :
  (forall x y s, (bx0 <= x < bx1)%Z -> (by0 <= y <= by1)%Z ->
                 P s -> P (blend_pixel Minv y x s)) ->
  P st ->
  P (for_le by0 by1 (fun y st =>
       for_lt bx0 bx1 (fun x st => blend_pixel Minv y x st) st) st).
Proof.
  intros Hstep Hst. unfold for_le, for_lt.
  apply for_up_preserves; [|exact Hst].
  intros y s Hy Hs.
  apply for_up_preserves; [|exact Hs].
  intros x s' Hx Hs'. apply Hstep; auto; lia.
Qed.

Lemma AccumulateBlend_unfold (img : CByteImage) (acc : CFloatImage)
    (M : CTransform3x3) (blendWidth : double) (bx0 by0 bx1 by1 : Z) :
  ImageBoundingBox img M = (bx0, by0, bx1, by1) ->
  AccumulateBlend (img, acc) M blendWidth =
  for_le by0 by1 (fun y st =>
    for_lt bx0 bx1 (fun x st => blend_pixel (Inverse M) y x st) st) (img, acc).
Proof. intros H. unfold AccumulateBlend. cbn [fst]. rewrite H. reflexivity. Qed.






End BlendFacts.

Section BlendClaims.

Local Open Scope float_scope.
Import Blend Examples.







End BlendClaims.

(** * Further functions of the sources *)

(** ** FeatureSet.cpp: selection *)

Module FeatureSetOps.

Import FeatureAlign.

(** [i->selected = b], for the iterator [i]. *)
Definition set_selected (ft : Feature) (b : bool) : Feature :=
  mkFeature (type ft) (id ft) (x ft) (y ft) (angleRadians ft) (data ft) b.

(** The test of [select_point]:
    [(fabs((double)i->x - x) <= 3) && (fabs((double)i->y - y) <= 3)], for
    the iterator [i]. *)
Definition near_point (ft : Feature) (px py : Z) : bool :=
  (PrimFloat.abs (i2d (x ft) - i2d px) <=? 3)%float &&
  (PrimFloat.abs (i2d (y ft) - i2d py) <=? 3)%float.

(** [FeatureSet::select_point(int x, int y)]: the iterator loop rewrites
    every feature in place. *)
Definition select_point (fs : FeatureSet) (px py : Z) : FeatureSet :=
  map (fun ft => if near_point ft px py
                 then set_selected ft (negb (selected ft)) else ft) fs.

(** The test of [select_box]. *)
Definition in_box (ft : Feature) (xMin xMax yMin yMax : Z) : bool :=
  (x ft >=? xMin) && (x ft <=? xMax) && (y ft >=? yMin) && (y ft <=? yMax).

(** [FeatureSet::select_box(int xMin, int xMax, int yMin, int yMax)]. *)
Definition select_box (fs : FeatureSet) (xMin xMax yMin yMax : Z) : FeatureSet :=
  map (fun ft => if in_box ft xMin xMax yMin yMax
                 then set_selected ft (negb (selected ft)) else ft) fs.

(** [FeatureSet::select_all()]. *)
Definition select_all (fs : FeatureSet) : FeatureSet :=
  map (fun ft => set_selected ft true) fs.

(** [FeatureSet::deselect_all()]. *)
Definition deselect_all (fs : FeatureSet) : FeatureSet :=
  map (fun ft => set_selected ft false) fs.

(** The set that the reference parameter of [get_selected_features]
    names: the set the function is called on, or another one. *)
Inductive set_ref : Type :=
| this_set
| other_set (f : FeatureSet).

(** [FeatureSet::get_selected_features(FeatureSet &f)]: [f.clear()], then
    one [push_back] onto [f] for every selected feature between [begin()]
    and [end()] of the set.  The result is the set and [f] after the call.
    When [f] names the set itself, [f.clear()] empties the set before the
    loop starts, so that [begin()] is [end()] and nothing is pushed. *)
Definition get_selected_features (fs : FeatureSet) (f : set_ref)
    : FeatureSet * FeatureSet :=
  let push := fun (f : FeatureSet) ft => if selected ft then f ++ [ft] else f in
  match f with
  | other_set _ =>
      let f : FeatureSet := [] in
      (fs, fold_left push fs f)
  | this_set =>
      let fs : FeatureSet := [] in
      let fs := fold_left push fs fs in
      (fs, fs)
  end.

End FeatureSetOps.

Section FeatureSetFacts.

Import FeatureAlign FeatureSetOps.

Lemma set_selected_twice (ft : Feature) :
  set_selected (set_selected ft (negb (selected ft)))
               (negb (selected (set_selected ft (negb (selected ft))))) = ft.
Proof. destruct ft as [t i a b r d s]. cbn. rewrite negb_involutive. reflexivity. Qed.

Lemma map_toggle_twice (test : Feature -> bool) (fs : FeatureSet) :
  (forall ft b, test (set_selected ft b) = test ft) ->
  let toggle := fun ft => if test ft then set_selected ft (negb (selected ft)) else ft in
  map toggle (map toggle fs) = fs.
Proof.
  intros Htest toggle. rewrite map_map.
  induction fs as [|ft fs IH]; cbn [map]; [reflexivity|].
  rewrite IH. f_equal. unfold toggle.
  destruct (test ft) eqn:Ht.
  - rewrite Htest, Ht. apply set_selected_twice.
  - rewrite Ht. reflexivity.
Qed.

(** X1.  Selecting at the same point, or in the same box, a second time
    restores the feature set: both operations toggle the flag of the
    features they touch and touch the same features again. *)
Theorem select_twice_restores (fs : FeatureSet) (px py xMin xMax yMin yMax : Z) :
  select_point (select_point fs px py) px py = fs /\
  select_box (select_box fs xMin xMax yMin yMax) xMin xMax yMin yMax = fs.
Proof.
  split.
  - apply (map_toggle_twice (fun ft => near_point ft px py)). reflexivity.
  - apply (map_toggle_twice (fun ft => in_box ft xMin xMax yMin yMax)). reflexivity.
Qed.

Lemma push_selected (fs : FeatureSet) :
  forall out : FeatureSet,
    fold_left (fun f ft => if selected ft then f ++ [ft] else f) fs out =
    out ++ filter selected fs.
Proof.
  induction fs as [|ft fs IH]; intros out; cbn [fold_left filter].
  - rewrite app_nil_r. reflexivity.
  - rewrite IH. destruct (selected ft); [|reflexivity].
    rewrite <- app_assoc. reflexivity.
Qed.

(** X2.  Called with another set as its output, [get_selected_features]
    leaves the set as it is, discards what the output held and fills it
    with the selected features of the set, each once and in the order of
    the set; after [select_all] these are all features, after
    [deselect_all] there is none.  Called with the set itself as its
    output, it empties the set. *)
Theorem get_selected_features_result (fs out : FeatureSet) :
  get_selected_features fs (other_set out) = (fs, filter selected fs) /\
  snd (get_selected_features (select_all fs) (other_set out)) = select_all fs /\
  snd (get_selected_features (deselect_all fs) (other_set out)) = [] /\
  get_selected_features fs this_set = ([], []).
Proof.
  unfold get_selected_features. cbv zeta. rewrite !push_selected. cbn [app snd].
  repeat split.
  - unfold select_all. induction fs as [|ft fs IH]; cbn; [reflexivity|].
    f_equal. exact IH.
  - unfold deselect_all. induction fs as [|ft fs IH]; cbn; [reflexivity|exact IH].
Qed.

Lemma map_keeps (g : Feature -> Feature) (fs : FeatureSet) :
  (forall ft, (type (g ft), id (g ft), x (g ft), y (g ft), angleRadians (g ft), data (g ft)) =
              (type ft, id ft, x ft, y ft, angleRadians ft, data ft)) ->
  map (fun ft => (type ft, id ft, x ft, y ft, angleRadians ft, data ft)) (map g fs) =
  map (fun ft => (type ft, id ft, x ft, y ft, angleRadians ft, data ft)) fs.
Proof.
  intros Hg. rewrite map_map. apply map_ext. exact Hg.
Qed.

(** X3.  The four selection operations change nothing but the [selected]
    flags: the number of features, and the type, id, location, angle and
    descriptor of every feature, stay as they were. *)
Theorem selection_keeps_features (fs : FeatureSet) (px py xMin xMax yMin yMax : Z) :
  let content := map (fun ft => (type ft, id ft, x ft, y ft, angleRadians ft, data ft)) in
  content (select_point fs px py) = content fs /\
  content (select_box fs xMin xMax yMin yMax) = content fs /\
  content (select_all fs) = content fs /\
  content (deselect_all fs) = content fs.
Proof.
  cbv zeta. repeat split; apply map_keeps; intros ft; try reflexivity.
  - destruct (near_point ft px py); reflexivity.
  - destruct (in_box ft xMin xMax yMin yMax); reflexivity.
Qed.

(** X4.  [select_box] toggles the flag of exactly the features whose
    location lies in the closed box: a feature with xMin <= x <= xMax and
    yMin <= y <= yMax has its flag negated, every other feature keeps its
    flag.  A box with xMax < xMin therefore changes nothing. *)
Theorem select_box_toggles_inside (fs : FeatureSet) (xMin xMax yMin yMax : Z) :
  map selected (select_box fs xMin xMax yMin yMax) =
  map (fun ft =>
         if ((xMin <=? x ft) && (x ft <=? xMax) && (yMin <=? y ft) && (y ft <=? yMax))%Z
         then negb (selected ft) else selected ft) fs /\
  (xMax < xMin -> select_box fs xMin xMax yMin yMax = fs).
Proof.
  assert (Hbox : forall ft, in_box ft xMin xMax yMin yMax =
            ((xMin <=? x ft) && (x ft <=? xMax) && (yMin <=? y ft) && (y ft <=? yMax))%Z).
  { intros ft. unfold in_box. rewrite !Z.geb_leb. reflexivity. }
  split.
  - unfold select_box. rewrite map_map. apply map_ext. intros ft.
    rewrite Hbox. destruct (_ && _); reflexivity.
  - intros Hempty. unfold select_box.
    rewrite <- (map_id fs) at 2. apply map_ext. intros ft. rewrite Hbox.
    destruct (Z.leb_spec xMin (x ft)), (Z.leb_spec (x ft) xMax);
      cbn; try reflexivity; lia.
Qed.

End FeatureSetFacts.

(** ** ImageLib/Convolve.cpp: border handling *)

Module Convolve.

(** [enum EBorderMode] of Image.h. *)
Inductive EBorderMode : Type :=
| eBorderZero         (* zero padding *)
| eBorderReplicate    (* replicate border values *)
| eBorderReflect      (* reflect border pixels *)
| eBorderCyclic.      (* wrap pixel values *)

(** The macros [__max] and [__min] of Image.h, on [int]. *)
Definition max_int (a b : Z) : Z := if a >? b then a else b.
Definition min_int (a b : Z) : Z := if a <? b then a else b.

(** The arithmetic of [int].  Where the exact result [r] of an operation
    does not fit into 32 bits, the compiled code keeps its low 32 bits
    (the language leaves the overflow undefined).  [lo] and [hi] are the
    least and the greatest exact result the operation has on operands of
    type [int]; they are less than 2^32 away from the range of [int], so
    that one step of 2^32 brings the result back. *)
Definition wrap_within (lo hi r : Z) : Z :=
  if (lo <=? r) && (r <? INT_MIN) then r + 2 ^ 32
  else if (INT_MAX <? r) && (r <=? hi) then r - 2 ^ 32
  else r.

(** [a + b], [a - b], [-a], [a - 1] and [2 * a]. *)
Definition int_add (a b : Z) : Z :=
  wrap_within (2 * INT_MIN) (2 * INT_MAX) (a + b).
Definition int_sub (a b : Z) : Z :=
  wrap_within (INT_MIN - INT_MAX) (INT_MAX - INT_MIN) (a - b).
Definition int_neg (a : Z) : Z :=
  wrap_within (- INT_MAX) (- INT_MIN) (- a).
Definition int_pred (a : Z) : Z :=
  wrap_within (INT_MIN - 1) (INT_MAX - 1) (a - 1).
Definition int_twice (a : Z) : Z :=
  wrap_within (2 * INT_MIN) (2 * INT_MAX) (2 * a).

(** [TrimIndex(int k, EBorderMode e, int n)].  The [while] loop runs at
    most [fuel] times; [None] says that it is still running then.  [%] is
    the remainder of the division that truncates, [Z.rem]; the model does
    not show the division by zero of the cyclic mode with [n = 0]. *)
Fixpoint TrimIndex (fuel : nat) (k : Z) (e : EBorderMode) (n : Z) : option Z :=
  if (k <? 0) || (k >=? n) then
    match fuel with
    | O => None
    | S fuel' =>
        match e with
        | eBorderZero => Some (-1)
        | eBorderReplicate => Some (max_int 0 (min_int (int_pred n) k))
        | eBorderReflect =>
            let k := if k <? 0 then int_neg k
                     else if k <? n then k
                     else int_sub (int_twice (int_pred n)) k in
            TrimIndex fuel' k e n
        | eBorderCyclic =>
            let k := Z.rem (int_add k n) n in
            TrimIndex fuel' k e n
        end
    end
  else Some k.

End Convolve.

Section ConvolveFacts.

Import Convolve.

(** On operands of type [int] the five operations are the exact ones
    followed by the two's complement wrap-around, and exact where the exact
    result fits. *)
Lemma wrap_within_int (lo hi r : Z) :
  INT_MIN - 2 ^ 32 <= lo -> hi <= INT_MAX + 2 ^ 32 -> lo <= r <= hi ->
  wrap_within lo hi r = (r + 2 ^ 31) mod 2 ^ 32 - 2 ^ 31 /\
  INT_MIN <= wrap_within lo hi r <= INT_MAX.
Proof.
  unfold wrap_within, INT_MIN, INT_MAX. intros Hlo Hhi Hr.
  destruct (Z.leb_spec lo r); [|lia]. destruct (Z.leb_spec r hi); [|lia].
  destruct (Z.ltb_spec r (- 2 ^ 31)); cbn [andb].
  - split; [|lia].
    replace (r + 2 ^ 31) with (r + 2 ^ 32 + 2 ^ 31 + (-1) * 2 ^ 32) by lia.
    rewrite Z.mod_add, Z.mod_small by lia. lia.
  - destruct (Z.ltb_spec (2 ^ 31 - 1) r); cbn [andb].
    + split; [|lia].
      replace (r + 2 ^ 31) with (r - 2 ^ 32 + 2 ^ 31 + 1 * 2 ^ 32) by lia.
      rewrite Z.mod_add, Z.mod_small by lia. lia.
    + split; [|lia]. rewrite Z.mod_small by lia. lia.
Qed.

Lemma wrap_within_exact (lo hi r : Z) :
  INT_MIN <= r <= INT_MAX -> wrap_within lo hi r = r.
Proof.
  unfold wrap_within. intros Hr.
  destruct (Z.ltb_spec r INT_MIN); [lia|]. rewrite andb_false_r.
  destruct (Z.ltb_spec INT_MAX r); [lia|]. reflexivity.
Qed.

Lemma int_operations_wrap (a b : Z) :
  INT_MIN <= a <= INT_MAX -> INT_MIN <= b <= INT_MAX ->
  int_add a b = (a + b + 2 ^ 31) mod 2 ^ 32 - 2 ^ 31 /\
  int_sub a b = (a - b + 2 ^ 31) mod 2 ^ 32 - 2 ^ 31 /\
  int_neg a = (- a + 2 ^ 31) mod 2 ^ 32 - 2 ^ 31 /\
  int_pred a = (a - 1 + 2 ^ 31) mod 2 ^ 32 - 2 ^ 31 /\
  int_twice a = (2 * a + 2 ^ 31) mod 2 ^ 32 - 2 ^ 31.
Proof.
  unfold INT_MIN, INT_MAX. intros Ha Hb.
  repeat split; apply wrap_within_int; unfold INT_MIN, INT_MAX; lia.
Qed.

Lemma int_pred_above (n : Z) : INT_MIN < n -> int_pred n = n - 1.
Proof.
  unfold int_pred, wrap_within. intros Hn.
  destruct (Z.ltb_spec (n - 1) INT_MIN); [lia|]. rewrite andb_false_r.
  destruct (Z.ltb_spec INT_MAX (n - 1)), (Z.leb_spec (n - 1) (INT_MAX - 1));
    cbn [andb]; lia.
Qed.

Lemma TrimIndex_done (fuel : nat) (k : Z) (e : EBorderMode) (n : Z) :
  0 <= k < n -> TrimIndex fuel k e n = Some k.
Proof.
  intros Hk. destruct fuel; cbn [TrimIndex];
    destruct (Z.ltb_spec k 0), (Z.geb_spec k n); try lia; reflexivity.
Qed.

Lemma TrimIndex_step (fuel : nat) (k : Z) (e : EBorderMode) (n : Z) :
  ~ (0 <= k < n) ->
  TrimIndex (S fuel) k e n =
  match e with
  | eBorderZero => Some (-1)
  | eBorderReplicate => Some (max_int 0 (min_int (int_pred n) k))
  | eBorderReflect =>
      TrimIndex fuel (if k <? 0 then int_neg k
                      else if k <? n then k
                      else int_sub (int_twice (int_pred n)) k) e n
  | eBorderCyclic => TrimIndex fuel (Z.rem (int_add k n) n) e n
  end.
Proof.
  intros Hk. cbn [TrimIndex].
  destruct (Z.ltb_spec k 0), (Z.geb_spec k n); try lia; reflexivity.
Qed.

(** X5.  An index outside of 0 <= k < n is answered by -1 in the zero
    mode, and in the replicate mode by the nearest index of the range,
    0 below it and n - 1 above it; an index inside of the range is
    returned as it is in every mode. *)
Theorem TrimIndex_zero_and_replicate (fuel : nat) (k n : Z) (e : EBorderMode) :
  0 < n ->
  (0 <= k < n -> TrimIndex fuel k e n = Some k) /\
  (k < 0 -> TrimIndex (S fuel) k eBorderZero n = Some (-1) /\
            TrimIndex (S fuel) k eBorderReplicate n = Some 0) /\
  (n <= k -> TrimIndex (S fuel) k eBorderZero n = Some (-1) /\
             TrimIndex (S fuel) k eBorderReplicate n = Some (n - 1)).
Proof.
  intros Hn. split; [apply TrimIndex_done|].
  assert (Hp : int_pred n = n - 1) by (apply int_pred_above; unfold INT_MIN; lia).
  split; intros Hk.
  - rewrite !TrimIndex_step by lia. split; [reflexivity|].
    rewrite Hp. unfold max_int, min_int.
    destruct (Z.ltb_spec (n - 1) k); [lia|].
    destruct (Z.gtb_spec 0 k); [reflexivity|lia].
  - rewrite !TrimIndex_step by lia. split; [reflexivity|].
    rewrite Hp. unfold max_int, min_int.
    destruct (Z.ltb_spec (n - 1) k).
    + destruct (Z.gtb_spec 0 (n - 1)); [lia|reflexivity].
    + assert (k = n - 1) by lia. subst k.
      destruct (Z.gtb_spec 0 (n - 1)); [lia|reflexivity].
Qed.

Lemma TrimIndex_zero_and_replicate_witness :
  TrimIndex 1 (-3) eBorderReplicate 5 = Some 0 /\
  TrimIndex 1 7 eBorderReplicate 5 = Some 4.
Proof.
  destruct (TrimIndex_zero_and_replicate 0 (-3) 5 eBorderZero) as (_ & H1 & _); [lia|].
  destruct (TrimIndex_zero_and_replicate 0 7 5 eBorderZero) as (_ & _ & H2); [lia|].
  split; [apply H1; lia|apply H2; lia].
Defined.

(** The truncating remainder of C++ against the modulus: they agree on a
    dividend that is not negative, and differ by n on a negative one that n
    does not divide. *)
Lemma rem_against_mod (a n : Z) :
  0 < n ->
  (0 <= a -> Z.rem a n = a mod n) /\
  (a < 0 -> Z.rem a n = a mod n \/ (Z.rem a n = a mod n - n /\ a mod n <> 0)).
Proof.
  intros Hn. split; intros Ha.
  - apply Z.rem_mod_nonneg; lia.
  - replace a with (- (- a)) by lia.
    rewrite Z.rem_opp_l by lia. rewrite (Z.rem_mod_nonneg (- a) n) by lia.
    destruct (Z.eq_dec ((- a) mod n) 0) as [Hz|Hnz].
    + left. rewrite (Z.mod_opp_l_z (- a) n) by lia. lia.
    + right. rewrite (Z.mod_opp_l_nz (- a) n) by lia.
      pose proof (Z.mod_pos_bound (- a) n Hn). lia.
Qed.

Lemma int_add_exact (a b : Z) :
  INT_MIN <= a + b <= INT_MAX -> int_add a b = a + b.
Proof. apply wrap_within_exact. Qed.

(** X6.  In the cyclic mode, for an index k of type [int] whose sum k + n
    does not overflow, the loop ends after at most two rounds and returns
    the index modulo n: the one number of 0 <= r < n that differs from k by
    a multiple of n. *)
Theorem TrimIndex_cyclic_is_modulo (fuel : nat) (k n : Z) :
  0 < n <= INT_MAX -> INT_MIN <= k -> k + n <= INT_MAX -> (2 <= fuel)%nat ->
  TrimIndex fuel k eBorderCyclic n = Some (k mod n).
Proof.
  intros Hn Hlow Hhigh Hfuel.
  assert (Hn' : 0 < n) by lia.
  destruct fuel as [|[|fuel]]; try lia.
  pose proof (Z.mod_pos_bound k n Hn') as Hm.
  assert (Hshift : (k + n) mod n = k mod n).
  { rewrite <- (Z.mod_add k 1 n) by lia. rewrite Z.mul_1_l. reflexivity. }
  assert (Hsum : int_add k n = k + n) by (apply int_add_exact; lia).
  destruct (Z_lt_le_dec k 0) as [Hneg|Hpos];
    [|destruct (Z_lt_le_dec k n) as [Hin|Hout]].
  - (* k < 0 *)
    rewrite TrimIndex_step by lia. rewrite Hsum.
    destruct (rem_against_mod (k + n) n Hn') as [Hge Hlt].
    destruct (Z_lt_le_dec (k + n) 0) as [Hs|Hs].
    + destruct (Hlt Hs) as [Hr|[Hr Hnz]]; rewrite Hr, Hshift.
      * apply TrimIndex_done. lia.
      * rewrite TrimIndex_step by lia.
        rewrite int_add_exact by lia.
        replace (k mod n - n + n) with (k mod n) by lia.
        rewrite Z.rem_small by lia. apply TrimIndex_done. lia.
    + rewrite (Hge Hs), Hshift. apply TrimIndex_done. lia.
  - (* 0 <= k < n *)
    rewrite TrimIndex_done by lia. f_equal. symmetry. apply Z.mod_small. lia.
  - (* n <= k *)
    rewrite TrimIndex_step by lia. rewrite Hsum.
    destruct (rem_against_mod (k + n) n Hn') as [Hge _].
    rewrite Hge, Hshift by lia. apply TrimIndex_done. lia.
Qed.

Lemma TrimIndex_cyclic_is_modulo_witness :
  TrimIndex 2 (-13) eBorderCyclic 5 = Some 2.
Proof.
  apply (TrimIndex_cyclic_is_modulo 2 (-13) 5); unfold INT_MIN, INT_MAX; lia.
Defined.

(** Where k + n overflows, the result is not the index modulo n: for
    k = INT_MAX and n = 5 the sum wraps around to -2147483644, and the
    loop returns 1, whereas INT_MAX modulo 5 is 2. *)
Example TrimIndex_cyclic_overflow :
  TrimIndex 2 INT_MAX eBorderCyclic 5 = Some 1 /\ INT_MAX mod 5 = 2.
Proof. split; reflexivity. Qed.

(** The mirror image of an index in 0 .. n-1: indices are folded back at
    both ends of the range, with period 2 (n - 1). *)
Definition mirrored (k n : Z) : Z :=
  let m := Z.abs k mod (2 * (n - 1)) in
  if m <? n then m else 2 * (n - 1) - m.

Lemma mirrored_range (k n : Z) : 2 <= n -> 0 <= mirrored k n < n.
Proof.
  intros Hn. unfold mirrored.
  pose proof (Z.mod_pos_bound (Z.abs k) (2 * (n - 1)) ltac:(lia)).
  destruct (Z.ltb_spec (Z.abs k mod (2 * (n - 1))) n); lia.
Qed.

Lemma mirrored_small (k n : Z) : 2 <= n -> 0 <= k < n -> mirrored k n = k.
Proof.
  intros Hn Hk. unfold mirrored.
  rewrite Z.abs_eq, Z.mod_small by lia.
  destruct (Z.ltb_spec k n); lia.
Qed.

Lemma mirrored_fold (k n : Z) :
  2 <= n -> n <= k <= 2 * (n - 1) -> mirrored k n = 2 * (n - 1) - k.
Proof.
  intros Hn Hk. unfold mirrored. rewrite Z.abs_eq by lia.
  destruct (Z.eq_dec k (2 * (n - 1))) as [->|Hne].
  - rewrite Z.mod_same by lia. destruct (Z.ltb_spec 0 n); lia.
  - rewrite Z.mod_small by lia. destruct (Z.ltb_spec k n); lia.
Qed.

Lemma mirrored_period (k n : Z) :
  2 <= n -> 2 * (n - 1) < k -> mirrored (k - 2 * (n - 1)) n = mirrored k n.
Proof.
  intros Hn Hk. unfold mirrored. rewrite !Z.abs_eq by lia.
  replace (k - 2 * (n - 1)) with (k + (-1) * (2 * (n - 1))) by lia.
  rewrite Z.mod_add by lia. reflexivity.
Qed.

Lemma int_neg_exact (a : Z) : - INT_MAX <= a <= INT_MAX -> int_neg a = - a.
Proof. intros Ha. apply wrap_within_exact. unfold INT_MIN, INT_MAX in *. lia. Qed.

Lemma int_sub_exact (a b : Z) :
  INT_MIN <= a - b <= INT_MAX -> int_sub a b = a - b.
Proof. apply wrap_within_exact. Qed.

Lemma int_twice_exact (a : Z) :
  INT_MIN <= 2 * a <= INT_MAX -> int_twice a = 2 * a.
Proof. apply wrap_within_exact. Qed.

Lemma TrimIndex_reflect_nonneg (n : Z) :
  2 <= n -> 2 * (n - 1) <= INT_MAX ->
  forall (m : nat) (k : Z) (fuel : nat),
    0 <= k <= INT_MAX -> (Z.to_nat k <= m)%nat -> (Z.to_nat k <= fuel)%nat ->
    TrimIndex fuel k eBorderReflect n = Some (mirrored k n).
Proof.
  intros Hn Hmax.
  assert (Hfold : int_twice (int_pred n) = 2 * (n - 1)).
  { rewrite int_pred_above by (unfold INT_MIN; lia).
    apply int_twice_exact. unfold INT_MIN. lia. }
  induction m as [|m IH]; intros k fuel Hk Hm Hfuel.
  - assert (k = 0) by lia. subst k.
    rewrite TrimIndex_done, mirrored_small by lia. reflexivity.
  - destruct (Z_lt_le_dec k n) as [Hin|Hout].
    { rewrite TrimIndex_done, mirrored_small by lia. reflexivity. }
    destruct fuel as [|fuel]; [lia|].
    rewrite TrimIndex_step by lia.
    destruct (Z.ltb_spec k 0); [lia|]. destruct (Z.ltb_spec k n); [lia|].
    rewrite Hfold.
    rewrite int_sub_exact by (unfold INT_MIN, INT_MAX in *; lia).
    destruct (Z_le_gt_dec k (2 * (n - 1))) as [Hback|Hfar].
    + rewrite TrimIndex_done, mirrored_fold by lia. reflexivity.
    + destruct fuel as [|fuel]; [lia|].
      rewrite TrimIndex_step by lia.
      destruct (Z.ltb_spec (2 * (n - 1) - k) 0); [|lia].
      rewrite int_neg_exact by (unfold INT_MAX in *; lia).
      replace (- (2 * (n - 1) - k)) with (k - 2 * (n - 1)) by lia.
      rewrite <- (mirrored_period k n) by lia.
      apply IH; lia.
Qed.

(** X7.  In the reflect mode, for a range of n >= 2 indices whose double
    fits into an [int], the loop ends for every index k of type [int] but
    INT_MIN, after at most |k| + 1 rounds, and returns the mirror image of
    k, a number of 0 .. n-1. *)
Theorem TrimIndex_reflect_mirrors (fuel : nat) (k n : Z) :
  2 <= n -> 2 * (n - 1) <= INT_MAX -> - INT_MAX <= k <= INT_MAX ->
  (Z.to_nat (Z.abs k) + 1 <= fuel)%nat ->
  TrimIndex fuel k eBorderReflect n = Some (mirrored k n) /\
  0 <= mirrored k n < n.
Proof.
  intros Hn Hmax Hint Hfuel. split; [|apply mirrored_range; exact Hn].
  destruct (Z_lt_le_dec k 0) as [Hneg|Hpos].
  - destruct fuel as [|fuel]; [lia|].
    rewrite TrimIndex_step by lia.
    destruct (Z.ltb_spec k 0); [|lia].
    rewrite int_neg_exact by exact Hint.
    rewrite (TrimIndex_reflect_nonneg n Hn Hmax (Z.to_nat (- k))) by lia.
    f_equal. unfold mirrored. rewrite Z.abs_opp. reflexivity.
  - apply (TrimIndex_reflect_nonneg n Hn Hmax (Z.to_nat k)); lia.
Qed.

Lemma TrimIndex_reflect_mirrors_witness :
  TrimIndex 8 (-7) eBorderReflect 3 = Some 1 /\ 0 <= 1 < 3.
Proof.
  apply (TrimIndex_reflect_mirrors 8 (-7) 3);
    [lia | unfold INT_MAX; lia | unfold INT_MAX; lia | reflexivity].
Defined.

(** The index INT_MIN is its own negation in [int]: the reflect mode never
    gets it into the range. *)
Example int_neg_INT_MIN : int_neg INT_MIN = INT_MIN.
Proof. reflexivity. Qed.

Lemma wrap_within_zero (lo hi r : Z) :
  - 2 ^ 32 < lo -> hi < 2 ^ 32 -> r <> 0 -> wrap_within lo hi r <> 0.
Proof.
  unfold wrap_within. intros Hlo Hhi Hr.
  destruct (Z.leb_spec lo r), (Z.ltb_spec r INT_MIN); cbn [andb];
    unfold INT_MIN, INT_MAX in *; try lia;
    destruct (Z.ltb_spec (2 ^ 31 - 1) r), (Z.leb_spec r hi); cbn [andb]; lia.
Qed.

(** X8.  In the reflect mode with a range of one index, n = 1, the loop
    never ends for an index other than 0: the index is negated in every
    round. *)
Theorem TrimIndex_reflect_single_never_returns (fuel : nat) (k : Z) :
  k <> 0 -> TrimIndex fuel k eBorderReflect 1 = None.
Proof.
  revert k. induction fuel as [|fuel IH]; intros k Hk.
  - cbn [TrimIndex].
    destruct (Z.ltb_spec k 0), (Z.geb_spec k 1); try lia; reflexivity.
  - rewrite TrimIndex_step by lia.
    destruct (Z.ltb_spec k 0).
    + apply IH. apply wrap_within_zero; unfold INT_MIN, INT_MAX; lia.
    + destruct (Z.ltb_spec k 1); [lia|]. apply IH.
      change (int_twice (int_pred 1)) with 0.
      apply wrap_within_zero; unfold INT_MIN, INT_MAX; lia.
Qed.

Lemma TrimIndex_reflect_single_never_returns_witness :
  TrimIndex 1000 4 eBorderReflect 1 = None.
Proof. apply (TrimIndex_reflect_single_never_returns 1000 4). lia. Defined.

End ConvolveFacts.

(** ** More on the transforms, the accumulation and the pair list *)

Section MoreOnClaimedCode.

Local Open Scope float_scope.
Import Blend Project2 Examples.

(** X9.  The default constructor of [CTransform3x3] writes all nine
    entries: whatever its storage held, the constructed transform is the
    identity. *)
Theorem CTransform3x3_default_is_identity (raw : CTransform3x3) :
  CTransform3x3_ctor raw = ((1, 0, 0), (0, 1, 0), (0, 0, 1)) /\
  CTransform3x3_new = CTransform3x3_ctor raw.
Proof.
  destruct raw as [[[[a b] c] [[d e] f]] [[g h] i]]. split; reflexivity.
Qed.

(** X10.  The product of a transform and a vector writes all three
    components of its result: the slot that the default constructor of
    [CVector3] leaves unset never shows in a product. *)
Theorem product_overwrites_storage (raw raw' : CVector3) (M : CTransform3x3)
    (v : CVector3) :
  mulV_on raw M v = mulV_on raw' M v.
Proof.
  destruct raw as [[a b] c], raw' as [[a' b'] c']. reflexivity.
Qed.

Lemma blend_loops_fixed (Minv : CTransform3x3) (bx0 by0 bx1 by1 : Z) (st : BlendState) :
  (forall x y, blend_pixel Minv y x st = st) ->
  for_le by0 by1 (fun y st =>
    for_lt bx0 bx1 (fun x st => blend_pixel Minv y x st) st) st = st.
Proof.
  intros Hfix.
  apply (blend_loops_preserve (fun s => s = st)); [|reflexivity].
  intros x y s _ _ ->. apply Hfix.
Qed.

(** X11.  Into an accumulator without pixels, of width or height zero (or
    less), [AccumulateBlend] writes nothing: it returns both images as
    they were, whatever the image, the transform and the blend width. *)
Theorem AccumulateBlend_empty_canvas (img : CByteImage) (acc : CFloatImage)
    (M : CTransform3x3) (blendWidth : double) :
  (width (Shape acc) <= 0)%Z \/ (height (Shape acc) <= 0)%Z ->
  AccumulateBlend (img, acc) M blendWidth = (img, acc).
Proof.
  intros Hempty.
  destruct (ImageBoundingBox img M) as [[[bx0 by0] bx1] by1] eqn:Hbb.
  rewrite (AccumulateBlend_unfold _ _ _ _ _ _ _ _ Hbb).
  apply blend_loops_fixed. intros x y. rewrite blend_pixel_cases.
  assert (Hout : InBounds (Shape acc) x y = false).
  { unfold InBounds.
    destruct (Z.leb_spec 0 x), (Z.ltb_spec x (width (Shape acc))),
      (Z.leb_spec 0 y), (Z.ltb_spec y (height (Shape acc)));
      cbn; try reflexivity; lia. }
  rewrite Hout. reflexivity.
Qed.

Lemma AccumulateBlend_empty_canvas_witness :
  AccumulateBlend (flat_image 3 3 100, cleared_acc 0 0) (Translation 1.5 1) 1 =
  (flat_image 3 3 100, cleared_acc 0 0).
Proof.
  apply (AccumulateBlend_empty_canvas (flat_image 3 3 100) (cleared_acc 0 0)).
  left. cbn. lia.
Defined.

(** X12.  A source image that reads as black everywhere (bands 0, 1 and 2
    zero at every pixel address) contributes nothing: [AccumulateBlend]
    returns the accumulator as it was. *)
Theorem AccumulateBlend_black_source (img : CByteImage) (acc : CFloatImage)
    (M : CTransform3x3) (blendWidth : double) :
  (forall x y, black img x y = true) ->
  AccumulateBlend (img, acc) M blendWidth = (img, acc).
Proof.
  intros Hblack.
  destruct (ImageBoundingBox img M) as [[[bx0 by0] bx1] by1] eqn:Hbb.
  rewrite (AccumulateBlend_unfold _ _ _ _ _ _ _ _ Hbb).
  apply blend_loops_fixed. intros x y. rewrite blend_pixel_cases.
  destruct (negb _); [reflexivity|].
  assert (Hskip : skips img (Inverse M) x y = true).
  { unfold skips. destruct (src_coord (Inverse M) x y) as [x_src y_src].
    rewrite (Hblack (d2i (floor x_src)) (d2i (floor y_src))).
    rewrite orb_true_r. reflexivity. }
  rewrite Hskip. reflexivity.
Qed.

Lemma AccumulateBlend_black_source_witness :
  AccumulateBlend (flat_image 3 3 0, cleared_acc 5 5) (Translation 1.5 1) 1 =
  (flat_image 3 3 0, cleared_acc 5 5).
Proof.
  apply (AccumulateBlend_black_source (flat_image 3 3 0) (cleared_acc 5 5)).
  intros x y. reflexivity.
Defined.



End MoreOnClaimedCode.

(** ** ImageLib/Image.cpp: allocation, clearing, sub-images *)

Module ImageOps.

Import Convolve.

(** [int nBytes = m_rowSize * s.height;] of [ReAllocate]: the size of the
    block that holds the pixels. *)
Definition nBytes {T} (img : CImageOf T) : Z :=
  m_rowSize img * height (Shape img).

(** The value that a product or a sum of [int]s leaves in an [int]: its
    low 32 bits, read in two's complement (the language leaves the overflow
    undefined; this is what the compiled code does). *)
Definition to_int (z : Z) : Z := (z + 2 ^ 31) mod 2 ^ 32 - 2 ^ 31.

(** [CImage::ReAllocate(CShape s, const type_info& ti, int bandSize,
    void *memory, bool deleteWhenDone, int rowSize)].  [memory] is the block
    passed, its address and its content, [None] for the null pointer;
    [start] and [fresh] are the address and the content of the block that
    [new] returns where the function allocates, which is taken to succeed.
    Where no block is passed and none is allocated, [m_memStart] is null
    and [fresh] stands for a content that cannot be read. *)
Definition ReAllocate_memory {T} (s : CShape) (bandSize : Z)
    (memory : option (Z * (Z -> T))) (rowSize : Z) (start : Z) (fresh : Z -> T)
    : CImageOf T :=
  let pixSize := to_int (bandSize * nBands s) in
  (* Do the real allocation work *)
  let rowSize :=
    if negb (rowSize =? 0) then to_int (pixSize * rowSize)
    else Z.land (to_int (to_int (pixSize * width s) + 7)) (-8) in
  let nBytes := to_int (rowSize * height s) in
  let memory :=
    match memory with
    | None => if 0 <? nBytes then Some (start, fresh) else None
    | Some block => Some block
    end in
  match memory with
  | Some (p, content) => mkImage s bandSize pixSize rowSize p content
  | None => mkImage s bandSize pixSize rowSize 0 fresh
  end.

(** [memset(p, 0, n)]: every element that starts in the [n] bytes from
    [p] reads as zero afterwards. *)
Definition memset_zero {T} (zero : T) (mem : Z -> T) (p n : Z) : Z -> T :=
  fun a => if (p <=? a) && (a <? p + n) then zero else mem a.

(** [CImage::ClearPixels()]. *)
Definition ClearPixels {T} (zero : T) (img : CImageOf T) : CImageOf T :=
  for_lt 0 (height (m_shape img)) (fun y img =>
    mkImage (m_shape img) (m_bandSize img) (m_pixSize img) (m_rowSize img)
            (m_memStart img)
            (memset_zero zero (m_memory img) (PixelAddress img 0 y 0)
                         (m_pixSize img * width (m_shape img)))) img.

(** [CImage::SetSubImage(int xO, int yO, int width, int height)]; the
    attribute [origin] of the image is passed and returned beside it. *)
Definition SetSubImage {T} (img : CImageOf T) (origin : Z * Z) (xO yO w h : Z)
    : CImageOf T * (Z * Z) :=
  let x := xO - fst origin in
  let y := yO - snd origin in
  (* Adjust the start of memory pointer *)
  let memStart := PixelAddress img x y 0 in
  (* Compute area of intersection and adjust the shape and origin *)
  let x1 := min_int (width (m_shape img)) (x + w) in
  let y1 := min_int (height (m_shape img)) (y + h) in
  let x := max_int 0 (min_int x (width (m_shape img))) in
  let y := max_int 0 (min_int y (height (m_shape img))) in
  (mkImage (mkShape (x1 - x) (y1 - y) (nBands (m_shape img)))
           (m_bandSize img) (m_pixSize img) (m_rowSize img) memStart (m_memory img),
   (fst origin + x1, snd origin + y1)).

(** [CImageOf<T>::SubImage(int x, int y, int width, int height)]: a copy of
    the handle, made a sub-image; it shares the memory. *)
Definition SubImage {T} (img : CImageOf T) (origin : Z * Z) (x y w h : Z)
    : CImageOf T * (Z * Z) :=
  let retval := img in
  SetSubImage retval origin x y w h.

End ImageOps.

Section LoopEstablishes.

Context {S : Type}.
Variable Inv Q : S -> Prop.
Variable body : Z -> S -> S.
Hypothesis Inv_step : forall i s, Inv s -> Inv (body i s).
Hypothesis Q_step : forall i s, Inv s -> Q s -> Q (body i s).

(** What one iteration establishes and every iteration keeps holds after
    a loop whose range holds that iteration. *)
Lemma for_up_establishes (i0 : Z) :
  (forall s, Inv s -> Q (body i0 s)) ->
  forall (n : nat) (lo : Z) (s : S),
    Inv s -> lo <= i0 < lo + Z.of_nat n -> Q (for_up n lo body s).
Proof.
  intros Hat. induction n as [|n IH]; intros lo s Hs Hi; [lia|].
  cbn [for_up]. destruct (Z.eq_dec lo i0) as [->|Hne].
  - apply (for_up_preserves (fun s' => Inv s' /\ Q s')).
    + intros i s' _ [H1 H2]. split; auto.
    + split; auto.
  - apply IH; [apply Inv_step; exact Hs|lia].
Qed.

End LoopEstablishes.

Section ImageOpsFacts.

Import ImageOps Convolve.


Lemma to_int_exact (z : Z) : INT_MIN <= z <= INT_MAX -> to_int z = z.
Proof.
  unfold to_int, INT_MIN, INT_MAX. intros Hz.
  rewrite Z.mod_small by lia. lia.
Qed.

Lemma round_down_to_8 (n : Z) : Z.land n (-8) = 8 * (n / 8).
Proof.
  change (-8) with (Z.lnot (Z.ones 3)).
  rewrite <- Z.ldiff_land, Z.ldiff_ones_r by lia.
  rewrite Z.shiftr_div_pow2, Z.shiftl_mul_pow2 by lia.
  change (2 ^ 3) with 8. lia.
Qed.

(** X14.  The row stride that [ReAllocate] sets, where the sizes do not
    overflow an [int].  The pixel size is the band size times the number of
    bands.  Called without a row size (the argument 0) it lays rows out on
    quadword boundaries: the stride is a multiple of 8, at least the width
    times the pixel size and less than 8 more; the image of a constructor,
    which passes no block either, is then the one of [Image.ReAllocate].
    Called with a row size, the stride is the pixel size times that row
    size, whatever the width is. *)
Theorem ReAllocate_row_stride {T} (s : CShape) (bandSize : Z)
    (memory : option (Z * (Z -> T))) (rowSize start : Z) (fresh : Z -> T) :
  let img := ReAllocate_memory s bandSize memory rowSize start fresh in
  let pixSize := bandSize * nBands s in
  INT_MIN <= pixSize <= INT_MAX ->
  (rowSize = 0 -> INT_MIN <= pixSize * width s /\ pixSize * width s + 7 <= INT_MAX) ->
  (rowSize <> 0 -> INT_MIN <= pixSize * rowSize <= INT_MAX) ->
  m_pixSize img = pixSize /\
  (rowSize = 0 ->
   m_rowSize img mod 8 = 0 /\
   pixSize * width s <= m_rowSize img < pixSize * width s + 8 /\
   (memory = None -> 0 < m_rowSize img * height s <= INT_MAX ->
    img = ReAllocate s bandSize start fresh)) /\
  (rowSize <> 0 -> m_rowSize img = pixSize * rowSize).
Proof.
  cbv zeta. intros Hpix Hrow0 Hrow.
  assert (HP : to_int (bandSize * nBands s) = bandSize * nBands s)
    by (apply to_int_exact; exact Hpix).
  assert (Hfields :
    m_pixSize (ReAllocate_memory s bandSize memory rowSize start fresh) =
      bandSize * nBands s /\
    m_rowSize (ReAllocate_memory s bandSize memory rowSize start fresh) =
      if negb (rowSize =? 0) then to_int (bandSize * nBands s * rowSize)
      else Z.land (to_int (to_int (bandSize * nBands s * width s) + 7)) (-8)).
  { unfold ReAllocate_memory. cbv zeta. rewrite HP.
    destruct memory as [[p content]|];
      [|destruct (0 <? _)]; cbn [m_pixSize m_rowSize]; auto. }
  destruct Hfields as [Hp Hr]. split; [exact Hp|]. split.
  - intros H0. subst rowSize. destruct (Hrow0 eq_refl) as [Hlo Hhi].
    cbn [Z.eqb negb] in Hr.
    rewrite (to_int_exact (bandSize * nBands s * width s)) in Hr
      by (unfold INT_MAX in *; lia).
    rewrite to_int_exact in Hr by (unfold INT_MIN in *; lia).
    rewrite round_down_to_8 in Hr.
    set (n := bandSize * nBands s * width s) in *.
    pose proof (Z.div_mod (n + 7) 8 ltac:(lia)) as Hdm.
    pose proof (Z.mod_pos_bound (n + 7) 8 ltac:(lia)) as Hmb.
    split; [|split].
    + rewrite Hr, Z.mul_comm. apply Z.mod_mul. lia.
    + rewrite Hr. lia.
    + intros -> Hbytes. rewrite Hr in Hbytes.
      unfold ReAllocate_memory, ReAllocate. cbv zeta. rewrite HP.
      cbn [Z.eqb negb]. fold n.
      rewrite (to_int_exact n) by (unfold INT_MAX in *; lia).
      rewrite (to_int_exact (n + 7)) by (unfold INT_MIN in *; lia).
      rewrite !round_down_to_8.
      rewrite to_int_exact by (unfold INT_MIN; lia).
      destruct (Z.ltb_spec 0 (8 * ((n + 7) / 8) * height s)); [reflexivity|lia].
  - intros Hnz. rewrite Hr.
    destruct (Z.eqb_spec rowSize 0) as [H0|_]; [contradiction|].
    cbn [negb]. apply to_int_exact. apply Hrow. exact Hnz.
Qed.

(** The kernel [ConvolveKernel_121] of Convolve.cpp: three floats in a
    block of its own, with the row size 3. *)
Lemma ReAllocate_row_stride_witness :
  let img := ReAllocate_memory (mkShape 3 1 1) 4 (Some (1000, fun _ => 0)) 3 0
                               (fun _ => 0) in
  m_pixSize img = 4 /\ m_rowSize img = 12.
Proof.
  destruct (ReAllocate_row_stride (mkShape 3 1 1) 4 (Some (1000, fun _ => 0)) 3 0
              (fun _ => 0)) as (HP & _ & HR).
  - unfold INT_MIN, INT_MAX. simpl. lia.
  - intros H. discriminate H.
  - intros _. unfold INT_MIN, INT_MAX. simpl. lia.
  - split; [exact HP | apply HR; discriminate].
Defined.

(** Where the width times the pixel size overflows, the stride is not what
    the width asks for: 2^30 pixels of four bytes get the row stride 0. *)
Example ReAllocate_stride_overflow :
  m_rowSize (ReAllocate_memory (mkShape 1073741824 1 4) 1 None 0 0 (fun _ => 0)) = 0.
Proof. reflexivity. Qed.

Lemma InBounds_spec (s : CShape) (x y : Z) :
  InBounds s x y = true <-> (0 <= x < width s /\ 0 <= y < height s).
Proof.
  unfold InBounds. rewrite !andb_true_iff, !Z.leb_le, !Z.ltb_lt. tauto.
Qed.





(** X17.  [ClearPixels] keeps the layout of the image and zeroes every
    band of every pixel inside its bounds; it leaves alone every address
    outside of the [width] pixels of the rows, the padding between the
    rows included. *)
Theorem ClearPixels_clears {T} (zero : T) (img : CImageOf T) :
  0 < m_bandSize img ->
  m_pixSize img = m_bandSize img * nBands (Shape img) ->
  header (ClearPixels zero img) = header img /\
  (forall x y band,
      InBounds (Shape img) x y = true -> 0 <= band < nBands (Shape img) ->
      Pixel (ClearPixels zero img) x y band = zero) /\
  (forall a,
      (forall y, 0 <= y < height (Shape img) ->
                 ~ (PixelAddress img 0 y 0 <= a <
                    PixelAddress img 0 y 0 + m_pixSize img * width (Shape img))) ->
      m_memory (ClearPixels zero img) a = m_memory img a).
Proof.
  intros HB HP. unfold ClearPixels, for_lt. rewrite Z.sub_0_r.
  set (body := fun (y : Z) (img0 : CImageOf T) =>
         mkImage (m_shape img0) (m_bandSize img0) (m_pixSize img0) (m_rowSize img0)
           (m_memStart img0)
           (memset_zero zero (m_memory img0) (PixelAddress img0 0 y 0)
              (m_pixSize img0 * width (m_shape img0)))).
  set (Inv := fun s : CImageOf T => header s = header img).
  assert (Hinv : forall i s, Inv s -> Inv (body i s)).
  { intros i s Hs. exact Hs. }
  assert (Hmem : forall i s a, Inv s ->
            m_memory (body i s) a =
            if (PixelAddress img 0 i 0 <=? a) &&
               (a <? PixelAddress img 0 i 0 + m_pixSize img * width (Shape img))
            then zero else m_memory s a).
  { intros i s a Hs. unfold body, memset_zero. cbn [m_memory].
    rewrite (header_PixelAddress _ _ _ _ _ Hs).
    unfold Inv, header in Hs. injection Hs as -> _ -> _ _. reflexivity. }
  assert (Hhead : Inv (for_up (Z.to_nat (height (m_shape img))) 0 body img)).
  { apply (for_up_preserves Inv); [|reflexivity]. intros i s _. apply Hinv. }
  split; [exact Hhead|]. split.
  - intros x y band Hin Hband. apply InBounds_spec in Hin.
    unfold Pixel. rewrite (header_PixelAddress _ _ _ _ _ Hhead).
    apply (for_up_establishes Inv
             (fun s => m_memory s (PixelAddress img x y band) = zero) body Hinv)
      with (i0 := y).
    + intros i s Hs Hz. rewrite Hmem by exact Hs. destruct (_ && _); auto.
    + intros s Hs. rewrite Hmem by exact Hs.
      assert (Hrange : PixelAddress img 0 y 0 <= PixelAddress img x y band <
                       PixelAddress img 0 y 0 + m_pixSize img * width (Shape img)).
      { unfold PixelAddress. rewrite HP.
        assert (0 <= x * nBands (Shape img) + band /\
                x * nBands (Shape img) + band + 1 <=
                width (Shape img) * nBands (Shape img)) by nia.
        nia. }
      destruct (Z.leb_spec (PixelAddress img 0 y 0) (PixelAddress img x y band)); [|lia].
      destruct (Z.ltb_spec (PixelAddress img x y band)
                  (PixelAddress img 0 y 0 + m_pixSize img * width (Shape img))); [|lia].
      reflexivity.
    + reflexivity.
    + unfold Shape in *. lia.
  - intros a Ha.
    apply (for_up_preserves
             (fun s => Inv s /\ m_memory s a = m_memory img a));
      [|split; reflexivity].
    intros i s Hi [Hs Hm]. split; [apply Hinv; exact Hs|].
    rewrite Hmem by exact Hs.
    specialize (Ha i ltac:(unfold Shape; lia)).
    destruct (Z.leb_spec (PixelAddress img 0 i 0) a);
      destruct (Z.ltb_spec a (PixelAddress img 0 i 0 +
                              m_pixSize img * width (Shape img)));
      cbn [andb]; try exact Hm. lia.
Qed.

Lemma ClearPixels_clears_witness :
  Pixel (ClearPixels 0 (ReAllocate (mkShape 3 2 4) 1 0 (fun _ => 7))) 2 1 3 = 0 /\
  m_memory (ClearPixels 0 (ReAllocate (mkShape 3 2 4) 1 0 (fun _ => 7))) 12 = 7.
Proof.
  destruct (ClearPixels_clears 0 (ReAllocate (mkShape 3 2 4) 1 0 (fun _ => 7)))
    as (_ & Hzero & Hkeep); [reflexivity|reflexivity|].
  split.
  - apply Hzero; [reflexivity|cbn; lia].
  - apply (Hkeep 12). intros y Hy. cbn in Hy |- *.
    assert (y = 0 \/ y = 1) as [->| ->] by lia; cbn; lia.
Defined.

(** X18.  A sub-image shares the memory of its parent: pixel (i, j) of
    the sub-image taken at (x, y) is the pixel (x + i, y + j) of the parent,
    counted from the parent's origin.  When the sub-image does not start
    left of or above the parent, each of its pixels is a pixel inside of the
    parent; when the requested rectangle lies inside of the parent, the
    sub-image has the requested size. *)
Theorem SubImage_shares_pixels {T} (img : CImageOf T) (origin : Z * Z) (x y w h : Z) :
  let sub := fst (SubImage img origin x y w h) in
  let dx := x - fst origin in
  let dy := y - snd origin in
  (forall i j band, Pixel sub i j band = Pixel img (dx + i) (dy + j) band) /\
  (0 <= dx -> 0 <= dy ->
   forall i j, InBounds (Shape sub) i j = true ->
               InBounds (Shape img) (dx + i) (dy + j) = true) /\
  (0 <= dx -> 0 <= dy -> 0 <= w -> 0 <= h ->
   dx + w <= width (Shape img) -> dy + h <= height (Shape img) ->
   Shape sub = mkShape w h (nBands (Shape img))).
Proof.
  cbv zeta. unfold SubImage, SetSubImage. cbn [fst snd].
  set (dx := x - fst origin). set (dy := y - snd origin).
  split; [|split].
  - intros i j band. unfold Pixel, PixelAddress. cbn.
    f_equal. fold dx dy. ring.
  - intros Hdx Hdy i j Hin. apply InBounds_spec in Hin. apply InBounds_spec.
    unfold Shape in *. cbn [m_shape width height] in Hin.
    unfold max_int, min_int in Hin.
    destruct (Z.ltb_spec (width (m_shape img)) (dx + w)),
      (Z.ltb_spec dx (width (m_shape img))),
      (Z.ltb_spec (height (m_shape img)) (dy + h)),
      (Z.ltb_spec dy (height (m_shape img)));
      repeat match goal with
             | H : context [(0 >? ?a)] |- _ => destruct (Z.gtb_spec 0 a)
             end; lia.
  - intros Hdx Hdy Hw Hh Hxw Hyh. unfold Shape in *. cbn [m_shape].
    unfold max_int, min_int.
    destruct (Z.ltb_spec (width (m_shape img)) (dx + w)),
      (Z.ltb_spec dx (width (m_shape img))),
      (Z.ltb_spec (height (m_shape img)) (dy + h)),
      (Z.ltb_spec dy (height (m_shape img)));
      repeat match goal with
             | |- context [(0 >? ?a)] => destruct (Z.gtb_spec 0 a)
             end; try lia; f_equal; lia.
Qed.

(** A sub-image that starts left of its parent is not clipped at its
    start: its pixel (0, 0) lies before the first pixel of the parent's
    row. *)
Example SubImage_starting_outside :
  let img := ReAllocate (mkShape 4 4 1) 1 100 (fun _ => 0) in
  let sub := fst (SubImage img (0, 0) (-2) 0 3 1) in
  Shape sub = mkShape 1 1 1 /\
  InBounds (Shape sub) 0 0 = true /\
  PixelAddress sub 0 0 0 = 98 /\ PixelAddress img 0 0 0 = 100.
Proof. repeat split. Qed.

End ImageOpsFacts.

(** ** ImageLib/Image.cpp, ImageLib/Convolve.cpp: clipping to the pixel type *)

Module PixelRange.

(** The value of an [int] expression, kept in 32 bits. *)
Definition wrap_int (z : Z) : Z := (z + 2 ^ 31) mod 2 ^ 32 - 2 ^ 31.

(** [1 << 31] on [int]: the bit pattern 0x80000000. *)
Definition one_shl_31 : Z := wrap_int (Z.shiftl 1 31).

(** [CImageOf<int>::MinVal()]: [return -1 ^ (1 << 31);], where the unary
    minus binds tighter than [^]. *)
Definition MinVal_int : Z := Z.lxor (-1) one_shl_31.

(** [CImageOf<int>::MaxVal()]: [return 0 ^ (1 << 31);]. *)
Definition MaxVal_int : Z := Z.lxor 0 one_shl_31.

(** [CImageOf<uchar>::MinVal()], [MaxVal()]. *)
Definition MinVal_uchar : Z := 0.
Definition MaxVal_uchar : Z := 255.

(** The value [Convolve] stores into an [int] image for the sum [sum]:
    [(T) __max(dst.MinVal(), __min(dst.MaxVal(), sum))], the macros being
    [((a) < (b)) ? (a) : (b)] and [((a) > (b)) ? (a) : (b)] and the
    comparisons made in [double]. *)
Definition Convolve_store_int (sum : double) : Z :=
  let lo := i2d MinVal_int in
  let hi := i2d MaxVal_int in
  let r := if (hi <? sum)%float then hi else sum in
  let r := if (r <? lo)%float then lo else r in
  d2i r.

End PixelRange.

Section PixelRangeFacts.

Import PixelRange.
Local Open Scope float_scope.

(** X19.  For [int] images the two bounds are exchanged: [MinVal()] is
    2147483647 and [MaxVal()] is -2147483648.  The clipping of [Convolve]
    between them therefore stores 2147483647 for every sum that is not a
    NaN. *)
Theorem Convolve_store_int_saturates (sum : double) :
  PrimFloat.is_nan sum = false ->
  MinVal_int = 2147483647%Z /\ MaxVal_int = (-2147483648)%Z /\
  Convolve_store_int sum = 2147483647%Z.
Proof.
  intros Hnan. split; [reflexivity|]. split; [reflexivity|].
  unfold Convolve_store_int. cbv zeta.
  change (i2d MinVal_int) with 2147483647.
  change (i2d MaxVal_int) with (-2147483648).
  assert (Hlow : forall m e, Prim2SF sum = S754_finite true m e \/
                             Prim2SF sum = S754_infinity true ->
                             (sum <? 2147483647) = true).
  { intros m e [H|H]; rewrite ltb_spec, H; reflexivity. }
  destruct (-2147483648 <? sum) eqn:Hfirst; [reflexivity|].
  rewrite ltb_spec in Hfirst.
  destruct (Prim2SF sum) as [s|s| |s m e] eqn:Hsf.
  - destruct s; discriminate Hfirst.
  - destruct s; [|discriminate Hfirst].
    rewrite (Hlow 1%positive 0%Z) by (right; reflexivity). reflexivity.
  - exfalso. unfold PrimFloat.is_nan in Hnan.
    rewrite FloatAxioms.eqb_spec, Hsf in Hnan. discriminate Hnan.
  - destruct s; [|discriminate Hfirst].
    rewrite (Hlow m e) by (left; reflexivity). reflexivity.
Qed.

Lemma Convolve_store_int_saturates_witness :
  MinVal_int = 2147483647%Z /\ MaxVal_int = (-2147483648)%Z /\
  Convolve_store_int 12.5 = 2147483647%Z.
Proof. apply (Convolve_store_int_saturates 12.5). reflexivity. Defined.

End PixelRangeFacts.

(** ** ImageLib/FileIO.cpp: reading Targa files *)

Module FileIO.

(** [class CTargaRLC]; pixels and the stream are lists of bytes. *)
Record CTargaRLC : Type := mkRLC {
  m_count : Z;            (* remaining count in current run *)
  m_RLC : bool;           (* is stream run-length coded? *)
  m_isRun : bool;         (* is current stream of pixels a run? *)
  m_buffer : list Z       (* internal buffer, uchar m_buffer[4] *)
}.

(** [fread(m_buffer, sizeof(uchar), nBytes, stream) != nBytes] decides
    between the error and the buffer with its first [nBytes] bytes read
    from the stream. *)
Definition fread_buffer (buffer : list Z) (nBytes : Z) (stream : list Z)
    : option (list Z * list Z) :=
  let n := Z.to_nat nBytes in
  if (List.length stream <? n)%nat then None
  else Some (firstn n stream ++ skipn n buffer, skipn n stream).

(** [fgetc(stream)]: the next byte, or EOF, which is -1. *)
Definition fgetc (stream : list Z) : Z * list Z :=
  match stream with
  | [] => (-1, [])
  | b :: rest => (b, rest)
  end.

(** [CTargaRLC::getBytes(int nBytes, FILE *stream)].  [None] stands for the
    [CError] thrown; otherwise the buffer the returned pointer shows, the
    reader and the rest of the stream. *)
Definition getBytes (rlc : CTargaRLC) (nBytes : Z) (stream : list Z)
    : option (list Z * CTargaRLC * list Z) :=
  (* Get one pixel, which consists of nBytes *)
  if nBytes >? 4 then None
  else if negb (m_RLC rlc) then
    match fread_buffer (m_buffer rlc) nBytes stream with
    | None => None
    | Some (buf, stream) =>
        Some (buf, mkRLC (m_count rlc) (m_RLC rlc) (m_isRun rlc) buf, stream)
    end
  else
    let header :=
      if m_count rlc =? 0 then
        (* Read in the next run count *)
        let '(c, stream) := fgetc stream in
        let isRun := negb (Z.land c 128 =? 0) in
        let count := Z.land c 127 + 1 in
        if isRun then (* read the pixels for this run *)
          match fread_buffer (m_buffer rlc) nBytes stream with
          | None => None
          | Some (buf, stream) => Some (mkRLC count (m_RLC rlc) isRun buf, stream)
          end
        else Some (mkRLC count (m_RLC rlc) isRun (m_buffer rlc), stream)
      else Some (rlc, stream) in
    match header with
    | None => None
    | Some (rlc, stream) =>
        let body :=
          if negb (m_isRun rlc) then
            match fread_buffer (m_buffer rlc) nBytes stream with
            | None => None
            | Some (buf, stream) =>
                Some (mkRLC (m_count rlc) (m_RLC rlc) (m_isRun rlc) buf, stream)
            end
          else Some (rlc, stream) in
        match body with
        | None => None
        | Some (rlc, stream) =>
            let rlc := mkRLC (m_count rlc - 1) (m_RLC rlc) (m_isRun rlc) (m_buffer rlc) in
            Some (m_buffer rlc, rlc, stream)
        end
    end.

(** [k] pixels read one after the other, as the row loop of [ReadFileTGA]
    does ([uchar* buf = rlc.getBytes(fileBytes, stream)]), each pixel being
    the first [nBytes] bytes of the buffer. *)
Fixpoint getPixels (k : nat) (rlc : CTargaRLC) (nBytes : Z) (stream : list Z)
    : option (list (list Z) * CTargaRLC * list Z) :=
  match k with
  | O => Some ([], rlc, stream)
  | S k' =>
      match getBytes rlc nBytes stream with
      | None => None
      | Some (buf, rlc, stream) =>
          match getPixels k' rlc nBytes stream with
          | None => None
          | Some (pixels, rlc, stream) =>
              Some (firstn (Z.to_nat nBytes) buf :: pixels, rlc, stream)
          end
      end
  end.

(** The packets of run-length coded Targa data: a run, whose header byte
    is 128 + c and which stands for c + 1 copies of the one pixel that
    follows, and a raw packet, whose header byte is c and which is followed
    by c + 1 pixels. *)
Inductive packet : Type :=
| Run (c : Z) (pixel : list Z)
| Raw (pixels : list (list Z)).

Definition packet_bytes (p : packet) : list Z :=
  match p with
  | Run c pixel => (128 + c) :: pixel
  | Raw pixels => (Z.of_nat (List.length pixels) - 1) :: List.concat pixels
  end.

Definition packet_pixels (p : packet) : list (list Z) :=
  match p with
  | Run c pixel => repeat pixel (Z.to_nat (c + 1))
  | Raw pixels => pixels
  end.

Definition packet_ok (nBytes : Z) (p : packet) : Prop :=
  match p with
  | Run c pixel => 0 <= c < 128 /\ Z.of_nat (List.length pixel) = nBytes
  | Raw pixels =>
      (1 <= List.length pixels <= 128)%nat /\
      Forall (fun pixel => Z.of_nat (List.length pixel) = nBytes) pixels
  end.

(** [struct CTargaHead], the fields [ReadFileTGA] decides on. *)
Record CTargaHead : Type := mkHead {
  colorMapType : Z;        (* color map type *)
  imageType : Z;           (* image type code *)
  cMapLength : Z * Z;      (* color map length, uchar cMapLength[2] *)
  cMapBits : Z;            (* color map entry size *)
  width : Z;               (* width of image *)
  height : Z;              (* height of image *)
  pixelSize : Z            (* image pixel size *)
}.

(** Image data type codes *)
Definition TargaRawColormap : Z := 1.
Definition TargaRawRGB : Z := 2.
Definition TargaRawBW : Z := 3.
Definition TargaRunColormap : Z := 9.
Definition TargaRunRGB : Z := 10.
Definition TargaRunBW : Z := 11.

Definition TargaCMapSize : Z := 256.
Definition TargaCMapBands : Z := 3.

(** [for (int j = 0; j < TargaCMapBands; j++) if (colormap[i][j] != i) break;]
    The value of [j] when the loop is left. *)
Fixpoint ramp_inner (n : nat) (colormap : Z -> Z -> Z) (i j : Z) : Z :=
  match n with
  | O => j
  | S n' => if negb (colormap i j =? i) then j (* break *)
            else ramp_inner n' colormap i (j + 1)
  end.

(** [for (i = 0; i < cMapSize; i++) { <inner loop> }]: the value of [i]
    when the loop is left.  The [break] leaves the inner loop only. *)
Fixpoint ramp_outer (n : nat) (colormap : Z -> Z -> Z) (cMapSize i : Z) : Z :=
  match n with
  | O => i
  | S n' =>
      if i <? cMapSize then
        let _j := ramp_inner (Z.to_nat TargaCMapBands) colormap i 0 in
        ramp_outer n' colormap cMapSize (i + 1)
      else i
  end.

(** [grayRamp = (i == cMapSize);] after the loops. *)
Definition grayRamp_check (colormap : Z -> Z -> Z) (cMapSize : Z) : bool :=
  ramp_outer (Z.to_nat cMapSize) colormap cMapSize 0 =? cMapSize.

(** [ReadFileTGA] from the header to the reader of the rows: [isGray],
    [isRaw] and the shape of the image, or [None] for a [CError] thrown.
    [colormap] is the array after the [fread] that fills it. *)
Definition ReadFileTGA_layout (h : CTargaHead) (colormap : Z -> Z -> Z)
    : option (bool * bool * Image.CShape) :=
  let fileBytes := (pixelSize h + 7) / 8 in
  (* Read the colormap *)
  let grayRamp :=
    if colorMapType h =? 1 then
      let cMapSize := Z.shiftl (snd (cMapLength h)) 8 + fst (cMapLength h) in
      if negb (cMapBits h =? 24) then None
      else
        let l := fileBytes * cMapSize in
        if l >? TargaCMapSize * TargaCMapBands then None
        else Some (grayRamp_check colormap cMapSize)
    else Some false in
  match grayRamp with
  | None => None
  | Some grayRamp =>
      let isGray :=
        (imageType h =? TargaRawBW) || (imageType h =? TargaRunBW) ||
        (grayRamp &&
         ((imageType h =? TargaRawColormap) || (imageType h =? TargaRunColormap))) in
      let isRaw :=
        (imageType h =? TargaRawBW) || (imageType h =? TargaRawRGB) ||
        ((imageType h =? TargaRawRGB) && isGray) in
      (* Determine the image shape *)
      Some (isGray, isRaw,
            Image.mkShape (width h) (height h) (if isGray then 1 else 4))
  end.

End FileIO.

Section FileIOFacts.

Import FileIO.

Lemma fread_buffer_app (buffer pixel rest : list Z) (nBytes : Z) :
  Z.of_nat (List.length pixel) = nBytes ->
  fread_buffer buffer nBytes (pixel ++ rest) =
    Some (pixel ++ skipn (List.length pixel) buffer, rest).
Proof.
  intros Hlen. unfold fread_buffer.
  replace (Z.to_nat nBytes) with (List.length pixel) by lia.
  destruct (Nat.ltb_spec (List.length (pixel ++ rest)) (List.length pixel)) as [Hlt|_].
  - rewrite length_app in Hlt. lia.
  - rewrite firstn_app, Nat.sub_diag, firstn_all. simpl firstn.
    rewrite app_nil_r, skipn_app, Nat.sub_diag, skipn_all. reflexivity.
Qed.

Lemma firstn_pixel (buffer pixel : list Z) :
  firstn (List.length pixel) (pixel ++ buffer) = pixel.
Proof.
  rewrite firstn_app, Nat.sub_diag, firstn_all. simpl. apply app_nil_r.
Qed.

Lemma fread_buffer_short (buffer stream : list Z) (nBytes : Z) :
  Z.of_nat (List.length stream) < nBytes ->
  fread_buffer buffer nBytes stream = None.
Proof.
  intros Hlen. unfold fread_buffer.
  destruct (Nat.ltb_spec (List.length stream) (Z.to_nat nBytes)) as [_|Hge];
    [reflexivity | lia].
Qed.

(** The two bits of a packet header, for each of its 128 counts. *)
Lemma header_byte (c : Z) :
  0 <= c < 128 ->
  Z.land (128 + c) 128 <> 0 /\ Z.land (128 + c) 127 = c /\
  Z.land c 128 = 0 /\ Z.land c 127 = c.
Proof.
  intros Hc.
  assert (Hall : forallb (fun c =>
            negb (Z.land (128 + c) 128 =? 0) && (Z.land (128 + c) 127 =? c) &&
            (Z.land c 128 =? 0) && (Z.land c 127 =? c))
            (map Z.of_nat (seq 0 128)) = true) by (vm_compute; reflexivity).
  rewrite forallb_forall in Hall.
  assert (Hin : In c (map Z.of_nat (seq 0 128))).
  { apply in_map_iff. exists (Z.to_nat c). split; [lia|].
    apply in_seq. lia. }
  specialize (Hall c Hin).
  repeat rewrite andb_true_iff in Hall.
  destruct Hall as [[[H1 H2] H3] H4].
  apply negb_true_iff, Z.eqb_neq in H1.
  apply Z.eqb_eq in H2, H3, H4. auto.
Qed.

Lemma getPixels_app (a b : nat) (rlc r1 r2 : CTargaRLC) (nBytes : Z)
    (s s1 s2 : list Z) (p1 p2 : list (list Z)) :
  getPixels a rlc nBytes s = Some (p1, r1, s1) ->
  getPixels b r1 nBytes s1 = Some (p2, r2, s2) ->
  getPixels (a + b) rlc nBytes s = Some (p1 ++ p2, r2, s2).
Proof.
  revert rlc s p1. induction a as [|a IH]; intros rlc s p1 Ha Hb.
  - simpl in Ha. injection Ha as <- <- <-. exact Hb.
  - simpl in Ha |- *.
    destruct (getBytes rlc nBytes s) as [[[buf r] s']|]; [|discriminate Ha].
    destruct (getPixels a r nBytes s') as [[[ps r'] s'']|] eqn:Hrec;
      [|discriminate Ha].
    injection Ha as <- <- <-.
    rewrite (IH _ _ _ Hrec Hb). reflexivity.
Qed.

(** Inside a run: the pixel in the buffer is handed out until the count
    is used up, and the stream is left alone. *)
Lemma getPixels_in_run (j : nat) (rlc : CTargaRLC) (nBytes : Z) (stream : list Z) :
  nBytes <= 4 ->
  m_RLC rlc = true -> m_isRun rlc = true -> m_count rlc = Z.of_nat j ->
  getPixels j rlc nBytes stream =
    Some (repeat (firstn (Z.to_nat nBytes) (m_buffer rlc)) j,
          mkRLC (if (j =? 0)%nat then m_count rlc else 0) true true (m_buffer rlc),
          stream).
Proof.
  intros Hn. revert rlc. induction j as [|j IH]; intros rlc HR HI HC.
  - simpl. destruct rlc as [c r i b]. simpl in *. subst. reflexivity.
  - simpl getPixels. unfold getBytes.
    destruct (Z.gtb_spec nBytes 4) as [Hgt|_]; [lia|].
    rewrite HR. simpl negb. cbv iota.
    destruct (Z.eqb_spec (m_count rlc) 0) as [H0|_]; [lia|].
    rewrite HI. simpl negb. cbv iota. cbv zeta. simpl m_buffer.
    rewrite IH; simpl; auto; try lia.
    destruct j; simpl; [|reflexivity].
    replace (m_count rlc - 1) with 0 by lia. reflexivity.
Qed.

(** Inside a raw packet: each pixel is read from the stream. *)
Lemma getPixels_in_raw (pixels : list (list Z)) (rlc : CTargaRLC) (nBytes : Z)
    (rest : list Z) :
  nBytes <= 4 ->
  Forall (fun pixel => Z.of_nat (List.length pixel) = nBytes) pixels ->
  m_RLC rlc = true -> m_isRun rlc = false ->
  m_count rlc = Z.of_nat (List.length pixels) ->
  exists rlc',
    getPixels (List.length pixels) rlc nBytes (List.concat pixels ++ rest) =
      Some (pixels, rlc', rest) /\
    m_RLC rlc' = true /\ m_count rlc' = 0.
Proof.
  intros Hn Hall. revert rlc.
  induction Hall as [|pixel pixels Hlen Hall IH]; intros rlc HR HI HC.
  - exists rlc. simpl. auto.
  - simpl List.length in *. simpl getPixels. unfold getBytes.
    destruct (Z.gtb_spec nBytes 4) as [Hgt|_]; [lia|].
    rewrite HR. simpl negb. cbv iota.
    destruct (Z.eqb_spec (m_count rlc) 0) as [H0|_]; [lia|].
    rewrite HI. simpl negb. cbv iota.
    simpl List.concat. rewrite <- app_assoc.
    rewrite (fread_buffer_app _ _ _ _ Hlen). cbv zeta. simpl m_buffer.
    simpl m_count. simpl m_RLC. simpl m_isRun.
    destruct (IH (mkRLC (m_count rlc - 1) (m_RLC rlc) (m_isRun rlc)
                        (pixel ++ skipn (List.length pixel) (m_buffer rlc))))
      as [rlc' [Hrec [HR' HC']]]; simpl; auto; try lia.
    rewrite HR, HI in Hrec. rewrite ?HR, ?HI. rewrite Hrec. exists rlc'. split; [|auto].
    replace (Z.to_nat nBytes) with (List.length pixel) by lia.
    rewrite firstn_pixel. reflexivity.
Qed.

(** The first pixel of a packet: the header byte is read, then the pixel. *)
Lemma getBytes_header (rlc : CTargaRLC) (nBytes b : Z) (pixel rest : list Z) :
  nBytes <= 4 -> Z.of_nat (List.length pixel) = nBytes ->
  m_RLC rlc = true -> m_count rlc = 0 ->
  getBytes rlc nBytes (b :: pixel ++ rest) =
    let buf := pixel ++ skipn (List.length pixel) (m_buffer rlc) in
    Some (buf,
          mkRLC (Z.land b 127 + 1 - 1) true (negb (Z.land b 128 =? 0)) buf,
          rest).
Proof.
  intros Hn Hlen HR HC. unfold getBytes.
  destruct (Z.gtb_spec nBytes 4) as [Hgt|_]; [lia|].
  rewrite HR, HC. simpl negb. simpl (0 =? 0). cbv iota.
  unfold fgetc.
  destruct (negb (Z.land b 128 =? 0)) eqn:Hrun.
  - rewrite (fread_buffer_app _ _ _ _ Hlen). simpl. reflexivity.
  - simpl. rewrite (fread_buffer_app _ _ _ _ Hlen). reflexivity.
Qed.

(** One packet, met with the count at zero. *)
Lemma getPixels_packet (p : packet) (rlc : CTargaRLC) (nBytes : Z) (rest : list Z) :
  0 <= nBytes <= 4 -> packet_ok nBytes p ->
  m_RLC rlc = true -> m_count rlc = 0 ->
  exists rlc',
    getPixels (List.length (packet_pixels p)) rlc nBytes (packet_bytes p ++ rest) =
      Some (packet_pixels p, rlc', rest) /\
    m_RLC rlc' = true /\ m_count rlc' = 0.
Proof.
  intros Hn Hok HR HC. destruct p as [c pixel | pixels]; simpl in Hok.
  - destruct Hok as [Hc Hlen].
    destruct (header_byte c Hc) as [Hrun [Hcount _]].
    apply Z.eqb_neq in Hrun.
    simpl packet_pixels. rewrite repeat_length.
    replace (Z.to_nat (c + 1)) with (S (Z.to_nat c)) by lia.
    unfold packet_bytes. rewrite <- app_comm_cons.
    remember (128 + c) as b eqn:Hb.
    simpl getPixels.
    rewrite (getBytes_header rlc nBytes b pixel rest) by (auto; lia).
    cbv zeta. rewrite Hrun, Hcount. simpl negb.
    rewrite getPixels_in_run by (simpl; auto; lia).
    simpl m_buffer. simpl m_count.
    replace (Z.to_nat nBytes) with (List.length pixel) by lia.
    rewrite firstn_pixel.
    eexists. split; [reflexivity|]. simpl. split; [reflexivity|].
    destruct (Z.to_nat c) eqn:Hz; simpl; lia.
  - destruct Hok as [Hlen Hall].
    destruct pixels as [|pixel pixels]; [simpl in Hlen; lia|].
    simpl packet_pixels. unfold packet_bytes.
    remember (Z.of_nat (List.length (pixel :: pixels)) - 1) as c eqn:Hcdef.
    assert (Hc : 0 <= c < 128) by (subst c; simpl List.length in *; lia).
    destruct (header_byte c Hc) as [_ [_ [Hraw Hcount]]].
    inversion Hall as [|px pxs Hp Hall' Heq]; clear Heq.
    simpl List.concat. rewrite <- app_comm_cons, <- app_assoc.
    simpl List.length. simpl getPixels.
    rewrite (getBytes_header rlc nBytes c pixel _) by (auto; lia).
    cbv zeta. rewrite Hraw, Hcount. simpl (0 =? 0). simpl negb.
    destruct (getPixels_in_raw pixels
                (mkRLC (c + 1 - 1) true false
                   (pixel ++ skipn (List.length pixel) (m_buffer rlc)))
                nBytes rest)
      as [rlc' [Hrec [HR' HC']]]; simpl; auto; try lia.
    { subst c. simpl List.length. lia. }
    rewrite Hrec. exists rlc'. split; [|auto].
    replace (Z.to_nat nBytes) with (List.length pixel) by lia.
    rewrite firstn_pixel. reflexivity.
Qed.

(** X20.  The run-length reader undoes the packet coding.  On a stream that
    begins with the bytes of well-formed packets of pixels of [nBytes]
    bytes (a run: header 128 + c and one pixel, standing for c + 1 copies;
    a raw packet: header c and c + 1 pixels), as many calls of [getBytes]
    as the packets hold pixels throw no error, hand out exactly those
    pixels in order, and leave the stream at the first byte after the
    packets with the count back at zero. *)
Theorem getBytes_unpacks_packets (packets : list packet) (rlc : CTargaRLC)
    (nBytes : Z) (rest : list Z) :
  0 <= nBytes <= 4 ->
  Forall (packet_ok nBytes) packets ->
  m_RLC rlc = true -> m_count rlc = 0 ->
  exists rlc',
    getPixels (List.length (flat_map packet_pixels packets)) rlc nBytes
              (flat_map packet_bytes packets ++ rest) =
      Some (flat_map packet_pixels packets, rlc', rest) /\
    m_RLC rlc' = true /\ m_count rlc' = 0.
Proof.
  intros Hn Hall. revert rlc.
  induction Hall as [|p packets Hp Hall IH]; intros rlc HR HC.
  - exists rlc. simpl. auto.
  - simpl flat_map. rewrite length_app, <- app_assoc.
    destruct (getPixels_packet p rlc nBytes (flat_map packet_bytes packets ++ rest)
                Hn Hp HR HC) as [r1 [H1 [HR1 HC1]]].
    destruct (IH r1 HR1 HC1) as [r2 [H2 [HR2 HC2]]].
    exists r2. split; [|auto].
    exact (getPixels_app _ _ _ _ _ _ _ _ _ _ _ H1 H2).
Qed.

Lemma getBytes_unpacks_packets_witness :
  exists rlc',
    getPixels 5 (mkRLC 0 true false [0; 0; 0; 0]) 3
              ([130; 1; 2; 3; 1; 4; 5; 6; 7; 8; 9] ++ [77]) =
      Some ([[1; 2; 3]; [1; 2; 3]; [1; 2; 3]; [4; 5; 6]; [7; 8; 9]], rlc', [77]) /\
    m_RLC rlc' = true /\ m_count rlc' = 0.
Proof.
  apply (getBytes_unpacks_packets
           [Run 2 [1; 2; 3]; Raw [[4; 5; 6]; [7; 8; 9]]]
           (mkRLC 0 true false [0; 0; 0; 0]) 3 [77]).
  - lia.
  - repeat constructor; simpl; lia.
  - reflexivity.
  - reflexivity.
Defined.

(** X21.  When [getBytes] throws and when it does not.  A pixel of more than
    four bytes is refused.  Without run-length coding the call succeeds
    exactly when the stream still holds [nBytes] bytes, and then it hands
    out those bytes and moves the stream past them.  With run-length coding,
    the end of the stream met where a packet header is due is an error too:
    the EOF that [fgetc] returns is taken for the header of a run of 128,
    whose pixel cannot be read. *)
Theorem getBytes_errors (rlc : CTargaRLC) (nBytes : Z) (stream : list Z) :
  (4 < nBytes -> getBytes rlc nBytes stream = None) /\
  (m_RLC rlc = false -> 0 <= nBytes <= 4 ->
   (Z.of_nat (List.length stream) < nBytes -> getBytes rlc nBytes stream = None) /\
   (nBytes <= Z.of_nat (List.length stream) ->
    exists buf rlc',
      getBytes rlc nBytes stream = Some (buf, rlc', skipn (Z.to_nat nBytes) stream) /\
      firstn (Z.to_nat nBytes) buf = firstn (Z.to_nat nBytes) stream)) /\
  (m_RLC rlc = true -> m_count rlc = 0 -> 1 <= nBytes ->
   getBytes rlc nBytes [] = None).
Proof.
  split; [|split].
  - intros Hn. unfold getBytes.
    destruct (Z.gtb_spec nBytes 4) as [_|Hle]; [reflexivity | lia].
  - intros HR Hn. split.
    + intros Hshort. unfold getBytes.
      destruct (Z.gtb_spec nBytes 4) as [Hgt|_]; [lia|].
      rewrite HR. simpl negb. cbv iota.
      rewrite fread_buffer_short by exact Hshort. reflexivity.
    + intros Hlong. unfold getBytes.
      destruct (Z.gtb_spec nBytes 4) as [Hgt|_]; [lia|].
      rewrite HR. simpl negb. cbv iota. unfold fread_buffer.
      destruct (Nat.ltb_spec (List.length stream) (Z.to_nat nBytes)) as [Hlt|_];
        [lia|].
      eexists. eexists. split; [reflexivity|].
      rewrite firstn_app, firstn_firstn, Nat.min_id.
      rewrite length_firstn.
      replace (Z.to_nat nBytes - Nat.min (Z.to_nat nBytes) (List.length stream))%nat
        with 0%nat by lia.
      simpl. apply app_nil_r.
  - intros HR HC Hn. unfold getBytes.
    destruct (Z.gtb_spec nBytes 4) as [_|Hle]; [reflexivity|].
    rewrite HR, HC. simpl negb. simpl (0 =? 0). cbv iota.
    simpl fgetc. cbv beta iota zeta.
    change (negb (Z.land (-1) 128 =? 0)) with true. cbv iota.
    rewrite fread_buffer_short by (simpl; lia). reflexivity.
Qed.

Lemma ramp_outer_end (n : nat) (colormap : Z -> Z -> Z) (cMapSize i : Z) :
  i <= cMapSize -> Z.of_nat n = cMapSize - i ->
  ramp_outer n colormap cMapSize i = cMapSize.
Proof.
  revert i. induction n as [|n IH]; intros i Hi Hn.
  - simpl. lia.
  - simpl ramp_outer.
    destruct (Z.ltb_spec i cMapSize) as [_|Hge]; [|lia].
    cbv zeta. apply IH; lia.
Qed.

(** X22.  The check for a gray ramp never fails: its [break] leaves only the
    loop over the bands, so the loop over the entries always runs to
    [cMapSize].  Hence every colour-mapped Targa file (types 1 and 9) whose
    24-bit colormap fits is laid out as a gray image with one band,
    whatever its colormap holds, and is read through the run-length reader,
    also when its type says raw. *)
Theorem ReadFileTGA_colormap_is_gray (h : CTargaHead) (colormap : Z -> Z -> Z) :
  colorMapType h = 1 -> cMapBits h = 24 ->
  0 <= fst (cMapLength h) -> 0 <= snd (cMapLength h) ->
  (pixelSize h + 7) / 8 * (Z.shiftl (snd (cMapLength h)) 8 + fst (cMapLength h))
    <= 768 ->
  imageType h = TargaRawColormap \/ imageType h = TargaRunColormap ->
  grayRamp_check colormap
    (Z.shiftl (snd (cMapLength h)) 8 + fst (cMapLength h)) = true /\
  ReadFileTGA_layout h colormap =
    Some (true, false, Image.mkShape (width h) (height h) 1).
Proof.
  intros Htype Hbits H0 H1 Hl Himg.
  set (cMapSize := Z.shiftl (snd (cMapLength h)) 8 + fst (cMapLength h)) in *.
  assert (Hsize : 0 <= cMapSize).
  { unfold cMapSize. rewrite Z.shiftl_mul_pow2 by lia. lia. }
  assert (Hramp : grayRamp_check colormap cMapSize = true).
  { unfold grayRamp_check. rewrite ramp_outer_end by lia. apply Z.eqb_refl. }
  split; [exact Hramp|].
  unfold ReadFileTGA_layout. rewrite Htype, Hbits. simpl (1 =? 1).
  simpl (negb (24 =? 24)). cbv iota zeta. fold cMapSize.
  destruct (Z.gtb_spec ((pixelSize h + 7) / 8 * cMapSize)
                       (TargaCMapSize * TargaCMapBands)) as [Hgt|_].
  { change (TargaCMapSize * TargaCMapBands) with 768 in Hgt. lia. }
  rewrite Hramp.
  destruct Himg as [Hi|Hi]; rewrite Hi; reflexivity.
Qed.

Lemma ReadFileTGA_colormap_is_gray_witness :
  grayRamp_check (fun _ _ => 200) 256 = true /\
  ReadFileTGA_layout (mkHead 1 1 (0, 1) 24 64 48 8) (fun _ _ => 200) =
    Some (true, false, Image.mkShape 64 48 1).
Proof.
  apply (ReadFileTGA_colormap_is_gray (mkHead 1 1 (0, 1) 24 64 48 8)
           (fun _ _ => 200)).
  - reflexivity.
  - reflexivity.
  - simpl. lia.
  - simpl. lia.
  - vm_compute. discriminate.
  - left. reflexivity.
Defined.

End FileIOFacts.
